(** * Blockmodel fitting: the greedy optimiser and the block-fit driver

    A shallow embedding of [src/lib/optimization.cpp] (GreedyStrategy) and of
    [src/ui/block-fit/main.cpp] (BlockmodelFittingApp), with the properties
    stated about them.

    Numbers.  The program computes in [double] ([igraph_real_t]).  Here a
    [double] is a real number of [R] and [log] is [ln]: rounding, infinities
    and NaN are outside the model.  Every concrete model state on which
    [step] is evaluated below has all its block-pair probabilities above 0,
    where [log] is finite, and its score comparisons are either exact ties
    of sums of the same two terms or differences far above rounding
    error. *)

From Stdlib Require Import Reals Lra Lia Ascii String.
From stdpp Require Import base list relations.

Local Open Scope R_scope.

(** ** Dense vectors and matrices ([igraph::Vector], [igraph::Matrix]) *)

Abbreviation Vector := (list R).

(** A matrix is the list of its rows. *)
Abbreviation Matrix := (list (list R)).

(** [std::transform(M.begin(), M.end(), out.begin(), f)]: [f] on every
    element. *)
Definition matrix_transform (f : R -> R) (M : Matrix) : Matrix :=
  map (map f) M.

(** [A -= B], element by element. *)
Definition matrix_sub (A B : Matrix) : Matrix :=
  zip_with (zip_with Rminus) A B.

Definition matrix_get (M : Matrix) (a b : nat) : R :=
  nth b (nth a M []) 0.

(** Inner product of a matrix row with a vector. *)
Definition dot (row v : Vector) : R :=
  foldr Rplus 0 (zip_with Rmult row v).

(** Modelled from the spec: [Matrix::operator*(const Vector&)], whose body is
    not among the sources.  Entry [a] of the product is the inner product of
    row [a] with the vector. *)
Definition mat_vec (M : Matrix) (v : Vector) : Vector :=
  map (fun row => dot row v) M.

(** [std::max_element(first, last) - first]: the scan keeps the first largest
    element, replacing the current best only when [*best < *it]. *)
Fixpoint max_element_from (best : nat) (bestv : R) (i : nat) (l : Vector)
  : nat :=
  match l with
  | [] => best
  | x :: l' =>
      if Rlt_dec bestv x
      then max_element_from i x (S i) l'
      else max_element_from best bestv (S i) l'
  end.

Definition max_element (l : Vector) : nat :=
  match l with
  | [] => 0%nat
  | x :: l' => max_element_from 0 x 1 l'
  end.

(** ** The graph (external collaborator) *)

(** Modelled from the spec: [igraph::Graph].  Vertices are [0 .. vcount-1],
    the undirected edges are kept as the edge list the graph was read from. *)
Record Graph := mkGraph {
  vcount : nat;
  edgelist : list (nat * nat)
}.

(** Modelled from the spec: [Graph::neighbors], the neighbour lookup of the
    graph: one entry per incident edge end. *)
Definition neighbors (g : Graph) (i : nat) : list nat :=
  flat_map (fun e : nat * nat =>
              (if (e.1 =? i)%nat then [e.2] else []) ++
              (if (e.2 =? i)%nat then [e.1] else []))
           (edgelist g).

(** ** The blockmodel *)

(** Modelled from the spec: the state of [UndirectedBlockmodel] (its header
    and blockmodel.cpp are not among the sources): the graph it refers to,
    the number of types, the type assignment, and the derived probability
    matrix and cached log-likelihood. *)
Record UndirectedBlockmodel := mkModel {
  m_graph : Graph;
  m_numTypes : nat;
  m_types : list nat;
  m_probabilities : Matrix;
  m_logLikelihood : R
}.

Definition getGraph (m : UndirectedBlockmodel) : Graph := m_graph m.
Definition getNumTypes (m : UndirectedBlockmodel) : nat := m_numTypes m.
Definition getTypes (m : UndirectedBlockmodel) : list nat := m_types m.
Definition getProbabilities (m : UndirectedBlockmodel) : Matrix :=
  m_probabilities m.
Definition getLogLikelihood (m : UndirectedBlockmodel) : R :=
  m_logLikelihood m.

(** [model.getType(v)]; reading past the end of the assignment is undefined in
    the source, the model reads 0 there. *)
Definition getType (m : UndirectedBlockmodel) (v : nat) : nat :=
  nth v (m_types m) 0%nat.

(** Modelled from the spec: the number of vertices of block [a]. *)
Definition countVertices (types : list nat) (a : nat) : nat :=
  length (List.filter (fun t => (t =? a)%nat) types).

(** Modelled from the spec: the observed edge count between blocks [a] and
    [b]. *)
Definition countEdges (g : Graph) (types : list nat) (a b : nat) : nat :=
  length (List.filter
            (fun e : nat * nat =>
               let tu := nth e.1 types 0%nat in
               let tv := nth e.2 types 0%nat in
               ((tu =? a)%nat && (tv =? b)%nat) ||
               ((tu =? b)%nat && (tv =? a)%nat))
            (edgelist g)).

(** Modelled from the spec: the number of possible vertex pairs spanning
    blocks [a] and [b]; on the diagonal the self-pairs are left out. *)
Definition countPairs (types : list nat) (a b : nat) : nat :=
  if (a =? b)%nat
  then (countVertices types a * (countVertices types a - 1) / 2)%nat
  else (countVertices types a * countVertices types b)%nat.

(** Modelled from the spec: observed edges over possible pairs; a block
    pair without possible pairs gets 0. *)
Definition edgeProbability (e N : nat) : R :=
  if (N =? 0)%nat then 0 else INR e / INR N.

(** Modelled from the spec: the probability matrix of [UndirectedBlockmodel]
    (blockmodel.cpp is not among the sources): entry (a,b) is the observed
    edge count between the two blocks divided by the number of possible
    vertex pairs spanning them. *)
Definition calcProbabilities (g : Graph) (k : nat) (types : list nat)
  : Matrix :=
  map (fun a => map (fun b => edgeProbability (countEdges g types a b)
                                              (countPairs types a b))
                    (seq 0 k))
      (seq 0 k).

(** Modelled from the spec: the contribution of one block pair with [e]
    edges out of [N] possible ones under the independent Bernoulli edge
    model; empty and saturated pairs contribute zero. *)
Definition bernoulliTerm (e N : nat) : R :=
  if ((N =? 0)%nat || (e =? 0)%nat || (e =? N)%nat)%bool then 0
  else INR e * ln (INR e / INR N) +
       INR (N - e) * ln (1 - INR e / INR N).

(** Modelled from the spec: the log-likelihood of [UndirectedBlockmodel]
    (blockmodel.cpp is not among the sources): the log-probability of the
    observed graph, one Bernoulli term per unordered block pair. *)
Definition calcLogLikelihood (g : Graph) (k : nat) (types : list nat) : R :=
  foldr Rplus 0
    (map (fun a =>
            foldr Rplus 0
              (map (fun b => bernoulliTerm (countEdges g types a b)
                                           (countPairs types a b))
                   (seq a (k - a))))
         (seq 0 k)).

(** Modelled from the spec: [UndirectedBlockmodel::setTypes], which replaces
    the whole assignment and recomputes the derived state from scratch. *)
Definition setTypes (m : UndirectedBlockmodel) (types : list nat)
  : UndirectedBlockmodel :=
  {| m_graph := m_graph m;
     m_numTypes := m_numTypes m;
     m_types := types;
     m_probabilities := calcProbabilities (m_graph m) (m_numTypes m) types;
     m_logLikelihood := calcLogLikelihood (m_graph m) (m_numTypes m) types |}.

(** A model as its constructor and setters leave it: one type below
    [numTypes] per vertex, derived state consistent with the assignment. *)
Definition wellFormed (m : UndirectedBlockmodel) : Prop :=
  length (m_types m) = vcount (m_graph m) /\
  Forall (fun t => (t < m_numTypes m)%nat) (m_types m) /\
  m_probabilities m =
    calcProbabilities (m_graph m) (m_numTypes m) (m_types m) /\
  m_logLikelihood m =
    calcLogLikelihood (m_graph m) (m_numTypes m) (m_types m).

(** ** GreedyStrategy (optimization.cpp) *)

(** The helper of the anonymous namespace, as it is written.  [log] of a
    double is read as [ln], which is the program's value for a positive
    argument only: at 0 the source has [1.0 - log(0.0)], plus infinity,
    where [ln 0] is 0. *)
Definition log_1_minus_x (x : R) : R := 1 - ln x.

(** Lines 22-29 of [step]: [logP] and [log1P] are two transforms of the
    probability matrix, then [logP -= log1P].  For a positive entry [p] the
    result is the program's, [2 * log p - 1]; for an entry 0, the
    probability of a pair of blocks without an edge between them, the
    program has minus infinity and the reals have nothing to put there. *)
Definition logOddsMatrix (P : Matrix) : Matrix :=
  let logP := matrix_transform ln P in
  let log1P := matrix_transform log_1_minus_x P in
  matrix_sub logP log1P.


(** Lines 43-47: a zero vector of length [k], incremented once per neighbour
    at the neighbour's type.  A type outside [0,k) is undefined behaviour in
    the source; the model leaves the vector as it is. *)
Definition neiCountByType (model : UndirectedBlockmodel) (k : nat)
  (neis : list nat) : Vector :=
  foldl (fun cnt v => alter (fun c => c + 1) (getType model v) cnt)
        (replicate k 0) neis.

(** The scores of vertex [i]: the matrix-vector product of line 51. *)
Definition vertexScores (logP : Matrix) (model : UndirectedBlockmodel)
  (k i : nat) : Vector :=
  mat_vec logP (neiCountByType model k (neighbors (getGraph model) i)).

(** The loop state: the model, passed by reference, and the local buffer
    [newTypes]. *)
Definition SweepState : Type := UndirectedBlockmodel * list nat.

(** One iteration of the loop over the vertices (lines 32-56). *)
Definition step_vertex (logP : Matrix) (k : nat) (st : SweepState) (i : nat)
  : SweepState :=
  let model := st.1 in
  let scores := vertexScores logP model k i in
  (model, <[i := max_element scores]> (st.2)).

Definition sweep (logP : Matrix) (k n : nat) (model : UndirectedBlockmodel)
  : SweepState :=
  foldl (step_vertex logP k) (model, replicate n 0%nat) (seq 0 n).

(** [GreedyStrategy::step]: the returned pair is the model after the call and
    the returned flag. *)
Definition step (model : UndirectedBlockmodel)
  : UndirectedBlockmodel * bool :=
  let graph := getGraph model in
  let n := vcount graph in
  let k := getNumTypes model in
  let logP := logOddsMatrix (getProbabilities model) in
  let st := sweep logP k n model in
  let model' := st.1 in
  let newTypes := st.2 in
  if decide (newTypes <> getTypes model')
  then (setTypes model' newTypes, true)
  else (model', false).

(** [GreedyStrategy::optimize]: [while (step(model));].  The source has no
    iteration cap; [fuel] bounds the number of calls of [step], and [None]
    means the bound was reached before [step] returned false. *)
Fixpoint optimize (fuel : nat) (model : UndirectedBlockmodel)
  : option UndirectedBlockmodel :=
  match fuel with
  | O => None
  | S fuel' =>
      let r := step model in
      if r.2 then optimize fuel' r.1 else Some r.1
  end.

(** *** The step as the specification words it *)

(** The log-odds of a block-pair probability. *)
Definition spec_logOdds (p : R) : R := ln p - ln (1 - p).

Definition spec_logOddsMatrix (P : Matrix) : Matrix :=
  matrix_transform spec_logOdds P.

(** Neighbour counts by block, read off a fixed assignment. *)
Definition spec_neighborCounts (g : Graph) (types : list nat) (k i : nat)
  : Vector :=
  map (fun b => INR (length (List.filter
                               (fun v => (nth v types 0%nat =? b)%nat)
                               (neighbors g i))))
      (seq 0 k).

(** The block a vertex is proposed for, from a frozen snapshot (graph,
    assignment, log-odds matrix). *)
Definition proposedType (L : Matrix) (g : Graph) (types : list nat)
  (k i : nat) : nat :=
  max_element (mat_vec L (spec_neighborCounts g types k i)).

(** All proposals of one sweep, written to a buffer of their own. *)
Definition proposedTypes (L : Matrix) (g : Graph) (types : list nat)
  (k : nat) : list nat :=
  map (proposedType L g types k) (seq 0 (vcount g)).

(** [j] is the first maximum of [scores]. *)
Definition firstMaxAt (scores : Vector) (j : nat) : Prop :=
  exists y, scores !! j = Some y /\
    (forall i x, scores !! i = Some x -> x <= y) /\
    (forall i x, (i < j)%nat -> scores !! i = Some x -> x < y).

(** ** The block-fit application (main.cpp) *)

Inductive OutputFormat := FORMAT_PLAIN | FORMAT_JSON | FORMAT_NULL.
Inductive InitMethod := GREEDY | RANDOM.

(** The parsed command line, with the fields [main.cpp] reads. *)
Record CommandLineArguments := mkArgs {
  inputFile : string;
  numGroups : Z;
  numSamples : Z;
  outputFormat : OutputFormat;
  blockSize : Z;
  initMethod : InitMethod;
  logPeriod : Z;
  randomSeed : Z
}.

(** How a member function ends: normally, by an exception that leaves it, by
    an operation the language leaves undefined (a null [auto_ptr]
    dereferenced, an integer remainder by zero), or not within the bound on
    loop iterations that the model adds. *)
Inductive Outcome (A : Type) : Type :=
  | Done (a : A)
  | Thrown (what : string)
  | Undefined
  | OutOfFuel.
Arguments Done {A} a.
Arguments Thrown {A} what.
Arguments Undefined {A}.
Arguments OutOfFuel {A}.

Definition bind {A B : Type} (x : Outcome A) (f : A -> Outcome B)
  : Outcome B :=
  match x with
  | Done a => f a
  | Thrown w => Thrown w
  | Undefined => Undefined
  | OutOfFuel => OutOfFuel
  end.

Definition outcome_map {A B : Type} (f : A -> B) (x : Outcome A)
  : Outcome B :=
  match x with
  | Done a => Done (f a)
  | Thrown w => Thrown w
  | Undefined => Undefined
  | OutOfFuel => OutOfFuel
  end.

Notation "'do' x <- e ; k" := (bind e (fun x => k))
  (at level 10, x name, e at level 100, k at level 200).

(** [std::numeric_limits<double>::max()]. *)
Definition DBL_MAX : R := (2 - / 2 ^ 52) * 2 ^ 1023.

(** The collaborators whose code is not among the sources, as one
    interface. *)
Class Collaborators := {
  (** [MetropolisHastingsStrategy]: its state (random source, counters) and
      one step of the chain on the live model. *)
  Sampler : Type;
  mcmc_step :
    Sampler -> UndirectedBlockmodel -> Sampler * UndirectedBlockmodel;
  init_genrand : Z -> Sampler -> Sampler;
  (** [model.randomize(rng)], drawing from the sampler's random source. *)
  randomize :
    Sampler -> UndirectedBlockmodel -> Sampler * UndirectedBlockmodel;
  (** [UndirectedBlockmodel(graph, groupCount)] and
      [UndirectedBlockmodel()]. *)
  newModel : Graph -> nat -> UndirectedBlockmodel;
  defaultModel : UndirectedBlockmodel;
  (** [EntropyConvergenceCriterion]: a fresh instance and [check]. *)
  Criterion : Type;
  newCriterion : Criterion;
  check : Criterion -> Vector -> bool * Criterion;
  (** [aic] of util.hpp. *)
  aic : UndirectedBlockmodel -> R;
  (** Files: [fopen(name, "r")], the standard input, and
      [Graph::ReadEdgelist]. *)
  File : Type;
  fopen : string -> option File;
  stdin : File;
  ReadEdgelist : File -> Graph
}.

Section BlockFit.

Context `{Collaborators}.

(** [bic] of util.hpp, kept apart from the interface so that statements
    can vary it. *)
Variable bic : UndirectedBlockmodel -> R.

(** The fields of [BlockmodelFittingApp]; [cout] collects what the model
    writer was asked to write. *)
Record App := mkApp {
  m_args : CommandLineArguments;
  m_pGraph : option Graph;
  m_pModel : option UndirectedBlockmodel;
  m_mcmc : Sampler;
  m_bestLogL : R;
  m_bestModel : UndirectedBlockmodel;
  m_dumpBestStateFlag : bool;
  m_pModelWriter : option OutputFormat;
  cout : list (OutputFormat * UndirectedBlockmodel)
}.

(** The constructor. *)
Definition newApp (args : CommandLineArguments) (mcmc : Sampler) : App :=
  {| m_args := args; m_pGraph := None; m_pModel := None; m_mcmc := mcmc;
     m_bestLogL := - DBL_MAX; m_bestModel := defaultModel;
     m_dumpBestStateFlag := false; m_pModelWriter := None; cout := [] |}.

Definition dumpBestState (app : App) : App :=
  {| m_args := m_args app; m_pGraph := m_pGraph app;
     m_pModel := m_pModel app; m_mcmc := m_mcmc app;
     m_bestLogL := m_bestLogL app; m_bestModel := m_bestModel app;
     m_dumpBestStateFlag := false;
     m_pModelWriter := m_pModelWriter app;
     cout := match m_pModelWriter app with
             | Some w => cout app ++ [(w, m_bestModel app)]
             | None => cout app
             end |}.

(** The SIGUSR1 handler. *)
Definition raiseDumpBestStateFlag (app : App) : App :=
  {| m_args := m_args app; m_pGraph := m_pGraph app;
     m_pModel := m_pModel app; m_mcmc := m_mcmc app;
     m_bestLogL := m_bestLogL app; m_bestModel := m_bestModel app;
     m_dumpBestStateFlag := true;
     m_pModelWriter := m_pModelWriter app; cout := cout app |}.

(** [loadGraph]: the graph, or the exception it throws.  The "filename"
    attribute set on the graph is not modelled. *)
Definition loadGraph (filename : string) : Outcome Graph :=
  if String.eqb filename "-" then Done (ReadEdgelist stdin)
  else match fopen filename with
       | None => Thrown (String.append "File not found: " filename)
       | Some fptr => Done (ReadEdgelist fptr)
       end.

(** [m_mcmc.step()] advances the sampler and the live model it points to. *)
Definition setLive (app : App) (mcmc : Sampler)
  (model : UndirectedBlockmodel) : App :=
  {| m_args := m_args app; m_pGraph := m_pGraph app;
     m_pModel := Some model; m_mcmc := mcmc;
     m_bestLogL := m_bestLogL app; m_bestModel := m_bestModel app;
     m_dumpBestStateFlag := m_dumpBestStateFlag app;
     m_pModelWriter := m_pModelWriter app; cout := cout app |}.

(** [m_bestModel = model; m_bestLogL = logL;] *)
Definition setBest (app : App) (model : UndirectedBlockmodel) (logL : R)
  : App :=
  {| m_args := m_args app; m_pGraph := m_pGraph app;
     m_pModel := m_pModel app; m_mcmc := m_mcmc app;
     m_bestLogL := logL; m_bestModel := model;
     m_dumpBestStateFlag := m_dumpBestStateFlag app;
     m_pModelWriter := m_pModelWriter app; cout := cout app |}.

(** One iteration of the loop of [runBlock] (lines 167-189).  The progress
    line written to [clog] is not modelled, the remainder that decides
    whether to write it is. *)
Definition runBlock_body (st : App * Vector) : Outcome (App * Vector) :=
  let app := st.1 in
  match m_pModel app with
  | None => Undefined
  | Some model =>
      let r := mcmc_step (m_mcmc app) model in
      let app1 := setLive app r.1 r.2 in
      let logL := getLogLikelihood r.2 in
      let app2 :=
        if Rlt_dec (m_bestLogL app1) logL then setBest app1 r.2 logL
        else app1 in
      let samples := st.2 ++ [logL] in
      if (logPeriod (m_args app2) =? 0)%Z then Undefined
      else Done (if m_dumpBestStateFlag app2 then dumpBestState app2
                 else app2, samples)
  end.

Fixpoint runBlock_loop (n : nat) (st : App * Vector)
  : Outcome (App * Vector) :=
  match n with
  | O => Done st
  | S n' => do st' <- runBlock_body st; runBlock_loop n' st'
  end.

(** [runBlock(numSamples, samples)]: the vector is cleared first. *)
Definition runBlock (numSamples : Z) (app : App) : Outcome (App * Vector) :=
  runBlock_loop (Z.to_nat numSamples) (app, []).

(** What can happen to the application during a sampling run: an iteration
    of the loop of [runBlock] completes, or SIGUSR1 arrives and its handler
    raises the dump flag. *)
Inductive sampling_step : App * Vector -> App * Vector -> Prop :=
  | sampling_iteration (st st' : App * Vector) :
      runBlock_body st = Done st' -> sampling_step st st'
  | sampling_signal (st : App * Vector) :
      sampling_step st (raiseDumpBestStateFlag st.1, st.2).

(** The loop of [runBlock] with SIGUSR1 delivered meanwhile.  [signals] has
    one entry per iteration: true when the handler raised the flag after the
    previous iteration was done with it (or, for the first entry, after the
    start) and before this iteration tests it.  The handler only sets a
    boolean that is read in one place, so when within that span it ran, and
    how often, makes no difference. *)
Fixpoint runBlock_signals (signals : list bool) (st : App * Vector)
  : Outcome (App * Vector) :=
  match signals with
  | [] => Done st
  | signal :: rest =>
      do st' <- runBlock_body
                  (if signal then (raiseDumpBestStateFlag st.1, st.2)
                   else st);
      runBlock_signals rest st'
  end.

(** The loop [while (!converged)] of [fitForGivenGroupCount]. *)
Fixpoint chainUntilConverged (fuel : nat) (crit : Criterion) (app : App)
  : Outcome App :=
  match fuel with
  | O => OutOfFuel
  | S fuel' =>
      do st <- runBlock (blockSize (m_args app)) app;
      let c := check crit st.2 in
      if c.1 then Done st.1 else chainUntilConverged fuel' c.2 st.1
  end.

(** Lines 75-96: a fresh randomized model, the greedy initialization when
    asked for, and the best model reset to the result. *)
Definition initModel (fuel : nat) (groupCount : nat) (app : App)
  : Outcome App :=
  match m_pGraph app with
  | None => Undefined
  | Some graph =>
      let r := randomize (m_mcmc app) (newModel graph groupCount) in
      do model <- match initMethod (m_args app) with
                  | GREEDY => match optimize fuel r.2 with
                              | Some m => Done m
                              | None => OutOfFuel
                              end
                  | RANDOM => Done r.2
                  end;
      Done (setBest (setLive app r.1 model) model (getLogLikelihood model))
  end.

Definition fitForGivenGroupCount (fuel : nat) (groupCount : nat)
  (app : App) : Outcome App :=
  do app1 <- initModel fuel groupCount app;
  chainUntilConverged fuel newCriterion app1.

(** The locals of the search for the type count (lines 231-233). *)
Record Search := mkSearch {
  s_app : App;
  bestAIC : R;
  bestBIC : R;
  bestModel : UndirectedBlockmodel
}.

(** The body of the loop over [k] (lines 237-249). *)
Definition trySearch (fuel : nat) (k : nat) (s : Search)
  : Outcome Search :=
  do app <- fitForGivenGroupCount fuel k (s_app s);
  let currentAIC := aic (m_bestModel app) in
  let currentBIC := bic (m_bestModel app) in
  Done {| s_app := app;
          bestAIC := if Rlt_dec currentAIC (bestAIC s) then currentAIC
                     else bestAIC s;
          bestBIC := if Rlt_dec currentBIC (bestBIC s) then currentBIC
                     else bestBIC s;
          bestModel := if Rlt_dec currentAIC (bestAIC s)
                       then m_bestModel app else bestModel s |}.

(** [for (int k = 2; k <= sqrt(vcount); k++)], from the current [k];
    [budget] only makes the recursion structural: the loop leaves by its
    own condition before a budget of [vcount] is used up. *)
Fixpoint searchLoop (budget : nat) (fuel : nat) (n : nat) (k : nat)
  (s : Search) : Outcome Search :=
  if Rle_dec (INR k) (sqrt (INR n)) then
    match budget with
    | O => OutOfFuel
    | S budget' =>
        do s' <- trySearch fuel k s;
        searchLoop budget' fuel n (S k) s'
    end
  else Done s.

(** The branch of [run] for an unspecified group count (lines 231-255). *)
Definition findTypeCount (fuel : nat) (app : App) : Outcome App :=
  match m_pGraph app with
  | None => Undefined
  | Some graph =>
      let n := vcount graph in
      do s <- searchLoop n fuel n 2
                {| s_app := app; bestAIC := DBL_MAX; bestBIC := DBL_MAX;
                   bestModel := defaultModel |};
      match m_pModel (s_app s) with
      | None => Undefined
      | Some _ =>
          Done (setBest (setLive (s_app s) (m_mcmc (s_app s)) (bestModel s))
                        (bestModel s) (getLogLikelihood (bestModel s)))
      end
  end.

(** *** The search as the specification words it *)

(** The candidate group counts: 2 up to the integer square root of the
    vertex count, inclusive. *)
Definition candidates (n : nat) : list nat := seq 2 (Nat.sqrt n - 1).

(** The fits of a list of candidates, one after the other, each starting
    from the application state the previous one left. *)
Fixpoint fitAll (fuel : nat) (ks : list nat) (app : App)
  : Outcome (list App) :=
  match ks with
  | [] => Done []
  | k :: ks' =>
      do app' <- fitForGivenGroupCount fuel k app;
      do rest <- fitAll fuel ks' app';
      Done (app' :: rest)
  end.

(** The search over a list of candidates. *)
Fixpoint searchList (fuel : nat) (ks : list nat) (s : Search)
  : Outcome Search :=
  match ks with
  | [] => Done s
  | k :: ks' => do s' <- trySearch fuel k s; searchList fuel ks' s'
  end.

(** The state was left by a block of the chain that the convergence
    criterion accepted. *)
Definition endsConverged (app' : App) : Prop :=
  exists (crit : Criterion) (app0 : App) (samples : Vector),
    runBlock (blockSize (m_args app0)) app0 = Done (app', samples) /\
    (check crit samples).1 = true.

(** [a], the fit at position [j], has the least AIC of all the fits, and
    is the first fit that has it. *)
Definition firstMinAIC (fits : list App) (j : nat) (a : App) : Prop :=
  fits !! j = Some a /\
  (forall i b, fits !! i = Some b ->
               aic (m_bestModel a) <= aic (m_bestModel b)) /\
  (forall i b, (i < j)%nat -> fits !! i = Some b ->
               aic (m_bestModel a) < aic (m_bestModel b)).

(** The locals of the search without the best BIC. *)
Definition forgetBIC (s : Search) : App * R * UndirectedBlockmodel :=
  (s_app s, bestAIC s, bestModel s).

(** [runUntilHellFreezesOver]: blocks of 1000 steps, for ever. *)
Fixpoint runUntilHellFreezesOver (fuel : nat) (app : App) : Outcome App :=
  match fuel with
  | O => OutOfFuel
  | S fuel' =>
      do st <- runBlock 1000 app;
      runUntilHellFreezesOver fuel' st.1
  end.

Definition setWriter (app : App) (w : OutputFormat) : App :=
  {| m_args := m_args app; m_pGraph := m_pGraph app;
     m_pModel := m_pModel app; m_mcmc := m_mcmc app;
     m_bestLogL := m_bestLogL app; m_bestModel := m_bestModel app;
     m_dumpBestStateFlag := m_dumpBestStateFlag app;
     m_pModelWriter := Some w; cout := cout app |}.

Definition setGraph (app : App) (g : Graph) : App :=
  {| m_args := m_args app; m_pGraph := Some g;
     m_pModel := m_pModel app; m_mcmc := m_mcmc app;
     m_bestLogL := m_bestLogL app; m_bestModel := m_bestModel app;
     m_dumpBestStateFlag := m_dumpBestStateFlag app;
     m_pModelWriter := m_pModelWriter app; cout := cout app |}.

Definition seedSampler (app : App) : App :=
  {| m_args := m_args app; m_pGraph := m_pGraph app;
     m_pModel := m_pModel app;
     m_mcmc := init_genrand (randomSeed (m_args app)) (m_mcmc app);
     m_bestLogL := m_bestLogL app; m_bestModel := m_bestModel app;
     m_dumpBestStateFlag := m_dumpBestStateFlag app;
     m_pModelWriter := m_pModelWriter app; cout := cout app |}.

(** The fitting part of [run] (lines 226-256). *)
Definition fit (fuel : nat) (app : App) : Outcome App :=
  if (0 <? numGroups (m_args app))%Z
  then fitForGivenGroupCount fuel (Z.to_nat (numGroups (m_args app))) app
  else findTypeCount fuel app.

(** The sampling part of [run] (lines 259-273). *)
Definition sample (fuel : nat) (app : App) : Outcome App :=
  if (0 <? numSamples (m_args app))%Z
  then do st <- runBlock (numSamples (m_args app)) app; Done st.1
  else runUntilHellFreezesOver fuel app.

(** [run], after the command line has been parsed into [m_args]: the exit
    status and the application's state.  This is [run] as it proceeds when
    no SIGUSR1 is delivered meanwhile; what a delivery changes, the dump
    flag and through it the output, is the subject of
    [raiseDumpBestStateFlag], [sampling_step] and [runBlock_signals]. *)
Definition run (fuel : nat) (app : App) : Outcome (Z * App) :=
  let app1 := setWriter app (outputFormat (m_args app)) in
  do graph <- loadGraph (inputFile (m_args app1));
  let app2 := seedSampler (setGraph app1 graph) in
  do app3 <- fit fuel app2;
  do app4 <- sample fuel app3;
  Done (0%Z, dumpBestState app4).

End BlockFit.

(** ** A scripted set of collaborators

    The sampler replays a script of assignments, one per step, and then
    rejects every proposal; the criterion accepts the first block; one file
    exists and holds a graph of nine vertices without edges. *)

Definition toyGraph : Graph := mkGraph 9 [].

Definition toyCollaborators : Collaborators :=
  {| Sampler := list (list nat);
     mcmc_step := fun s m => match s with
                             | [] => ([], m)
                             | t :: s' => (s', setTypes m t)
                             end;
     init_genrand := fun _ s => s;
     randomize := fun s m => (s, m);
     newModel := fun g k =>
                   setTypes (mkModel g k [] [] 0) (replicate (vcount g) 0%nat);
     defaultModel := mkModel (mkGraph 0 []) 0 [] [] 0;
     Criterion := unit;
     newCriterion := tt;
     check := fun c _ => (true, c);
     aic := fun m => INR (m_numTypes m * (m_numTypes m + 1))
                     - 2 * m_logLikelihood m;
     File := unit;
     fopen := fun name => if String.eqb name "graph.txt" then Some tt
                          else None;
     stdin := tt;
     ReadEdgelist := fun _ => toyGraph |}.

Definition toyBic (m : UndirectedBlockmodel) : R :=
  INR (m_numTypes m * (m_numTypes m + 1)) * ln 36 - 2 * m_logLikelihood m.

Definition toyArgs (file : string) : CommandLineArguments :=
  {| inputFile := file; numGroups := (-1)%Z; numSamples := 2%Z;
     outputFormat := FORMAT_PLAIN; blockSize := 1%Z; initMethod := RANDOM;
     logPeriod := 8192%Z; randomSeed := 42%Z |}.

(** A sampling run over the prism: the live model, the script still to be
    replayed and the best model so far. *)
Definition toyChain (script : list (list nat))
  (live best : UndirectedBlockmodel) : @App toyCollaborators :=
  @mkApp toyCollaborators (toyArgs "graph.txt") None (Some live) script
         (m_logLikelihood best) best false (Some FORMAT_PLAIN) [].

(** The search over the nine isolated vertices: the model a fit for [k]
    types starts from and, every proposal being rejected, ends with; the
    application before the search, after the fit for [k] types, and after
    the search. *)
Definition toyModel (k : nat) : UndirectedBlockmodel :=
  setTypes (mkModel toyGraph k [] [] 0) (replicate 9 0%nat).

Definition toyStart : @App toyCollaborators :=
  @mkApp toyCollaborators (toyArgs "-") (Some toyGraph) None []
         (- DBL_MAX) (mkModel (mkGraph 0 []) 0 [] [] 0) false
         (Some FORMAT_PLAIN) [].

Definition toyFitted (k : nat) : @App toyCollaborators :=
  @mkApp toyCollaborators (toyArgs "-") (Some toyGraph)
         (Some (toyModel k)) [] (m_logLikelihood (toyModel k)) (toyModel k)
         false (Some FORMAT_PLAIN) [].

Definition toySelected : @App toyCollaborators :=
  @mkApp toyCollaborators (toyArgs "-") (Some toyGraph)
         (Some (toyModel 2)) [] (m_logLikelihood (toyModel 2)) (toyModel 2)
         false (Some FORMAT_PLAIN) [].

(** ** Concrete model states *)

(** A model over [g] with [k] types whose assignment was installed by
    [setTypes]. *)
Definition freshModel (g : Graph) (k : nat) (types : list nat)
  : UndirectedBlockmodel :=
  setTypes (mkModel g k [] [] 0) types.

(** Two paths 0-1-2 and 3-4-5 joined in the middle by the edge 1-4. *)
Definition twoPaths : Graph :=
  mkGraph 6 [(0, 1); (1, 2); (3, 4); (4, 5); (1, 4)]%nat.
Definition twoPathsModel : UndirectedBlockmodel :=
  freshModel twoPaths 2 [0; 0; 0; 1; 1; 1]%nat.

(** The same paths joined at their ends by the edge 2-3: vertices 2 and 3
    have one neighbour in each block. *)
Definition tiedPaths : Graph :=
  mkGraph 6 [(0, 1); (1, 2); (3, 4); (4, 5); (2, 3)]%nat.
Definition tiedModel : UndirectedBlockmodel :=
  freshModel tiedPaths 2 [0; 0; 0; 1; 1; 1]%nat.

(** The assignment one sweep makes of it. *)
Definition tiedShiftedModel : UndirectedBlockmodel :=
  freshModel tiedPaths 2 [0; 0; 0; 0; 1; 1]%nat.

(** The joined paths and a vertex 6 without edges, put in block 1. *)
Definition lonelyGraph : Graph :=
  mkGraph 7 [(0, 1); (1, 2); (3, 4); (4, 5); (2, 3)]%nat.
Definition lonelyModel : UndirectedBlockmodel :=
  freshModel lonelyGraph 2 [0; 0; 0; 1; 1; 1; 1]%nat.

(** A denser first block: 2 of 3 pairs inside block 0, 1 of 3 inside block 1
    and 4 of 9 between them. *)
Definition denseGraph : Graph :=
  mkGraph 6 [(0, 1); (1, 2); (3, 4); (0, 3); (1, 4); (2, 5); (0, 4)]%nat.
Definition denseModel : UndirectedBlockmodel :=
  freshModel denseGraph 2 [0; 0; 0; 1; 1; 1]%nat.

(** Blocks that are denser towards each other than inside: 2 of 3 pairs
    inside block 0, 1 of 3 inside block 1 and 8 of 9 between them. *)
Definition crossGraph : Graph :=
  mkGraph 6 [(0, 1); (0, 2); (0, 3); (0, 4); (0, 5); (1, 3); (1, 4); (1, 5);
             (2, 3); (2, 4); (3, 4)]%nat.
Definition crossModel : UndirectedBlockmodel :=
  freshModel crossGraph 2 [0; 0; 0; 1; 1; 1]%nat.

(** A prism: the triangles 0-1-2 and 3-4-5 and the edges 0-3, 1-4, 2-5
    between them. *)
Definition prismGraph : Graph :=
  mkGraph 6 [(0, 1); (0, 2); (0, 3); (1, 2); (1, 4); (2, 5); (3, 4); (3, 5);
             (4, 5)]%nat.
Definition prismModel : UndirectedBlockmodel :=
  freshModel prismGraph 2 [0; 0; 1; 0; 1; 1]%nat.
Definition prismFixedModel : UndirectedBlockmodel :=
  freshModel prismGraph 2 [0; 1; 0; 1; 0; 1]%nat.

(** ** The sequence of sweeps *)

(** The model after [j] calls of [step]. *)
Fixpoint stepN (j : nat) (model : UndirectedBlockmodel)
  : UndirectedBlockmodel :=
  match j with
  | O => model
  | S j' => stepN j' (step model).1
  end.

(** ** The command line (cmd_arguments.cpp) *)

(** The anonymous enumeration of the option identifiers, in its order. *)
Inductive OptionId :=
  | NUM_GROUPS | NUM_SAMPLES | OUT_FORMAT | LOG_PERIOD | INIT_METHOD
  | BLOCK_SIZE.

Definition optionValue (o : OptionId) : Z :=
  match o with
  | NUM_GROUPS => 0
  | NUM_SAMPLES => 1
  | OUT_FORMAT => 2
  | LOG_PERIOD => 3
  | INIT_METHOD => 4
  | BLOCK_SIZE => 5
  end%Z.

(** The [case] of the [switch] in [handleOption] that an [int id] reaches,
    if any. *)
Definition optionOf (id : Z) : option OptionId :=
  if (id =? 0)%Z then Some NUM_GROUPS
  else if (id =? 1)%Z then Some NUM_SAMPLES
  else if (id =? 2)%Z then Some OUT_FORMAT
  else if (id =? 3)%Z then Some LOG_PERIOD
  else if (id =? 4)%Z then Some INIT_METHOD
  else if (id =? 5)%Z then Some BLOCK_SIZE
  else None.

(** [isspace] in the C locale. *)
Definition isspace (c : Ascii.ascii) : bool :=
  let n := Ascii.nat_of_ascii c in
  (n =? 32)%nat || ((9 <=? n)%nat && (n <=? 13)%nat).

(** The value of a decimal digit. *)
Definition digitValue (c : Ascii.ascii) : option Z :=
  let n := Ascii.nat_of_ascii c in
  if ((48 <=? n)%nat && (n <=? 57)%nat)%bool
  then Some (Z.of_nat (n - 48))
  else None.

Fixpoint skipSpaces (s : string) : string :=
  match s with
  | String c s' => if isspace c then skipSpaces s' else s
  | EmptyString => s
  end.

Fixpoint readDigits (acc : Z) (s : string) : Z :=
  match s with
  | String c s' =>
      match digitValue c with
      | Some d => readDigits (10 * acc + d) s'
      | None => acc
      end
  | EmptyString => acc
  end.

(** [atoi] and [atol] of the C library: leading white space, an optional
    sign, then the decimal digits up to the first other character; 0 when
    there is no digit.  A value outside the result type is undefined in C;
    the model returns the number the digits denote. *)
Definition atoi (s : string) : Z :=
  match skipSpaces s with
  | String "-"%char s' => (- readDigits 0 s')%Z
  | String "+"%char s' => readDigits 0 s'
  | s' => readDigits 0 s'
  end.

Definition atol (s : string) : Z := atoi s.

(** The constructor of [CommandLineArguments]: the defaults of the fields it
    initializes; the input file and the seed belong to the base class, which
    is not among the sources. *)
Definition CommandLineArguments_new (file : string) (seed : Z)
  : CommandLineArguments :=
  {| inputFile := file; numGroups := (-1)%Z; numSamples := 100000%Z;
     outputFormat := FORMAT_PLAIN; blockSize := 65536%Z;
     initMethod := GREEDY; logPeriod := 8192%Z; randomSeed := seed |}.

Definition set_numGroups (v : Z) (a : CommandLineArguments)
  : CommandLineArguments :=
  {| inputFile := inputFile a; numGroups := v; numSamples := numSamples a;
     outputFormat := outputFormat a; blockSize := blockSize a;
     initMethod := initMethod a; logPeriod := logPeriod a;
     randomSeed := randomSeed a |}.

Definition set_numSamples (v : Z) (a : CommandLineArguments)
  : CommandLineArguments :=
  {| inputFile := inputFile a; numGroups := numGroups a; numSamples := v;
     outputFormat := outputFormat a; blockSize := blockSize a;
     initMethod := initMethod a; logPeriod := logPeriod a;
     randomSeed := randomSeed a |}.

Definition set_outputFormat (v : OutputFormat) (a : CommandLineArguments)
  : CommandLineArguments :=
  {| inputFile := inputFile a; numGroups := numGroups a;
     numSamples := numSamples a; outputFormat := v;
     blockSize := blockSize a; initMethod := initMethod a;
     logPeriod := logPeriod a; randomSeed := randomSeed a |}.

Definition set_blockSize (v : Z) (a : CommandLineArguments)
  : CommandLineArguments :=
  {| inputFile := inputFile a; numGroups := numGroups a;
     numSamples := numSamples a; outputFormat := outputFormat a;
     blockSize := v; initMethod := initMethod a;
     logPeriod := logPeriod a; randomSeed := randomSeed a |}.

Definition set_initMethod (v : InitMethod) (a : CommandLineArguments)
  : CommandLineArguments :=
  {| inputFile := inputFile a; numGroups := numGroups a;
     numSamples := numSamples a; outputFormat := outputFormat a;
     blockSize := blockSize a; initMethod := v;
     logPeriod := logPeriod a; randomSeed := randomSeed a |}.

Definition set_logPeriod (v : Z) (a : CommandLineArguments)
  : CommandLineArguments :=
  {| inputFile := inputFile a; numGroups := numGroups a;
     numSamples := numSamples a; outputFormat := outputFormat a;
     blockSize := blockSize a; initMethod := initMethod a;
     logPeriod := v; randomSeed := randomSeed a |}.

(** What a call of [handleOption] leaves: the returned status, the fields,
    and what it wrote to [cerr]. *)
Record Handled := mkHandled {
  h_status : Z;
  h_args : CommandLineArguments;
  h_cerr : string
}.

Definition newline : string := String (Ascii.ascii_of_nat 10) EmptyString.

(** [CommandLineArguments::handleOption]. *)
Definition handleOption (id : Z) (arg : string) (a : CommandLineArguments)
  : Handled :=
  match optionOf id with
  | Some NUM_GROUPS => mkHandled 0 (set_numGroups (atoi arg) a) ""
  | Some NUM_SAMPLES => mkHandled 0 (set_numSamples (atol arg) a) ""
  | Some OUT_FORMAT =>
      if String.eqb arg "plain"
      then mkHandled 0 (set_outputFormat FORMAT_PLAIN a) ""
      else if String.eqb arg "json"
      then mkHandled 0 (set_outputFormat FORMAT_JSON a) ""
      else if String.eqb arg "null"
      then mkHandled 0 (set_outputFormat FORMAT_NULL a) ""
      else mkHandled 1 a
             (String.append "Unknown output format: "
                            (String.append arg newline))
  | Some BLOCK_SIZE => mkHandled 0 (set_blockSize (atoi arg) a) ""
  | Some INIT_METHOD =>
      if String.eqb arg "greedy"
      then mkHandled 0 (set_initMethod GREEDY a) ""
      else if String.eqb arg "random"
      then mkHandled 0 (set_initMethod RANDOM a) ""
      else mkHandled 1 a
             (String.append "Unknown initialization method: "
                            (String.append arg newline))
  | Some LOG_PERIOD => mkHandled 0 (set_logPeriod (atoi arg) a) ""
  | None => mkHandled 0 a ""
  end.

(** ** More scripted states *)

(** A path on three vertices, and collaborators whose files all hold it. *)
Definition tinyGraph : Graph := mkGraph 3 [(0, 1); (1, 2)]%nat.

Definition tinyCollaborators : Collaborators :=
  {| Sampler := list (list nat);
     mcmc_step := fun s m => match s with
                             | [] => ([], m)
                             | t :: s' => (s', setTypes m t)
                             end;
     init_genrand := fun _ s => s;
     randomize := fun s m => (s, m);
     newModel := fun g k =>
                   setTypes (mkModel g k [] [] 0) (replicate (vcount g) 0%nat);
     defaultModel := mkModel (mkGraph 0 []) 0 [] [] 0;
     Criterion := unit;
     newCriterion := tt;
     check := fun c _ => (true, c);
     aic := fun m => INR (m_numTypes m * (m_numTypes m + 1))
                     - 2 * m_logLikelihood m;
     File := unit;
     fopen := fun _ => Some tt;
     stdin := tt;
     ReadEdgelist := fun _ => tinyGraph |}.

(** The prism run with other command-line arguments. *)
Definition toyChainWith (args : CommandLineArguments)
  (script : list (list nat)) (live best : UndirectedBlockmodel)
  (flag : bool) : @App toyCollaborators :=
  @mkApp toyCollaborators args None (Some live) script
         (m_logLikelihood best) best flag (Some FORMAT_PLAIN) [].

(** A model with a single type on the joined paths. *)
Definition oneTypeModel : UndirectedBlockmodel :=
  freshModel twoPaths 1 [0; 0; 0; 0; 0; 0]%nat.

(** ** What the application keeps across its member functions *)

Section BlockFitInvariants.

Context `{Collaborators}.

(** The arguments, the graph and the writer are the same in both states;
    and if no dump was pending in the first, none is pending in the second
    and nothing was written in between. *)
Definition sameSetup (app app' : App) : Prop :=
  m_args app' = m_args app /\
  m_pGraph app' = m_pGraph app /\
  m_pModelWriter app' = m_pModelWriter app /\
  (m_dumpBestStateFlag app = false ->
   m_dumpBestStateFlag app' = false /\ cout app' = cout app).

(** The recorded best log-likelihood is that of the recorded best model,
    and the live model exists and is not better than it. *)
Definition bestConsistent (app : App) : Prop :=
  m_bestLogL app = getLogLikelihood (m_bestModel app) /\
  exists live : UndirectedBlockmodel,
    m_pModel app = Some live /\
    getLogLikelihood live <= m_bestLogL app.

End BlockFitInvariants.

(** * Properties *)

(** ** [std::max_element] *)

Lemma max_element_from_first_max (l p : Vector) (best : nat) (bestv : R) :
  p !! best = Some bestv ->
  (forall i x, p !! i = Some x -> x <= bestv) ->
  (forall i x, (i < best)%nat -> p !! i = Some x -> x < bestv) ->
  firstMaxAt (p ++ l) (max_element_from best bestv (length p) l).
Proof.
  revert p best bestv.
  induction l as [|x l IH]; intros p best bestv Hbest Hmax Hfirst.
  - rewrite app_nil_r. exists bestv. auto.
  - assert (Hlen : (best < length p)%nat)
      by (apply lookup_lt_is_Some; eauto).
    replace (p ++ x :: l) with ((p ++ [x]) ++ l)
      by (rewrite <- app_assoc; reflexivity).
    simpl. destruct (Rlt_dec bestv x) as [Hlt|Hge].
    + replace (S (length p)) with (length (p ++ [x]))
        by (rewrite length_app; simpl; lia).
      apply IH.
      * rewrite lookup_app_r by lia.
        replace (length p - length p)%nat with 0%nat by lia. reflexivity.
      * intros i y Hi. apply lookup_app_Some in Hi as [Hi|[_ Hi]].
        -- apply Hmax in Hi. lra.
        -- apply list_lookup_singleton_Some in Hi as [_ <-]. lra.
      * intros i y Hlti Hi. apply lookup_app_Some in Hi as [Hi|[Hle _]].
        -- apply Hmax in Hi. lra.
        -- lia.
    + replace (S (length p)) with (length (p ++ [x]))
        by (rewrite length_app; simpl; lia).
      apply IH.
      * rewrite lookup_app_l by lia. exact Hbest.
      * intros i y Hi. apply lookup_app_Some in Hi as [Hi|[_ Hi]].
        -- eauto.
        -- apply list_lookup_singleton_Some in Hi as [_ <-]. lra.
      * intros i y Hlti Hi. apply lookup_app_Some in Hi as [Hi|[Hle _]].
        -- eauto.
        -- lia.
Qed.

(** On a non-empty range [max_element] returns the first maximum. *)
Lemma max_element_first_max (l : Vector) :
  l <> [] -> firstMaxAt l (max_element l).
Proof.
  destruct l as [|x l]; [congruence|]. intros _.
  apply (max_element_from_first_max l [x] 0 x).
  - reflexivity.
  - intros [|i] y Hi; simpl in Hi; [|by destruct i]. inversion Hi. lra.
  - intros i y Hlt. lia.
Qed.

(** The first maximum is unique. *)
Lemma firstMaxAt_unique (l : Vector) (i j : nat) :
  firstMaxAt l i -> firstMaxAt l j -> i = j.
Proof.
  intros (x & Hx & Hxmax & Hxfirst) (y & Hy & Hymax & Hyfirst).
  destruct (Nat.lt_trichotomy i j) as [Hlt|[Heq|Hgt]]; [|exact Heq|].
  - pose proof (Hyfirst i x Hlt Hx). pose proof (Hxmax j y Hy). lra.
  - pose proof (Hxfirst j y Hgt Hy). pose proof (Hymax i x Hx). lra.
Qed.

Lemma max_element_unique (l : Vector) (j : nat) :
  firstMaxAt l j -> max_element l = j.
Proof.
  intros Hj. apply (firstMaxAt_unique l); [|exact Hj].
  apply max_element_first_max. intros ->.
  destruct Hj as (y & Hy & _). by destruct j.
Qed.

(** ** The sweep over the vertices *)

(** Number of the vertices of [neis] that have type [b]. *)
Lemma neiCount_lookup (model : UndirectedBlockmodel) (neis : list nat)
  (cnt : Vector) (b : nat) :
  foldl (fun cnt v => alter (fun c => c + 1) (getType model v) cnt) cnt neis
    !! b =
  (fun c => c + INR (length (List.filter
                               (fun v => (getType model v =? b)%nat) neis)))
    <$> cnt !! b.
Proof.
  revert cnt. induction neis as [|v neis IH]; intros cnt; simpl.
  - destruct (cnt !! b); simpl; [f_equal; lra|reflexivity].
  - rewrite IH. destruct (Nat.eqb_spec (getType model v) b) as [->|Hne].
    + rewrite list_lookup_alter_eq. destruct (cnt !! b); simpl; [|done].
      f_equal. destruct (length _); simpl; lra.
    + rewrite list_lookup_alter_ne by done. reflexivity.
Qed.

(** The counting loop computes the neighbour counts by block. *)
Lemma neiCountByType_spec (model : UndirectedBlockmodel) (k i : nat) :
  neiCountByType model k (neighbors (getGraph model) i) =
  spec_neighborCounts (getGraph model) (getTypes model) k i.
Proof.
  apply list_eq. intros b. unfold neiCountByType, spec_neighborCounts.
  rewrite neiCount_lookup.
  change (map ?f ?l) with (f <$> l). rewrite list_lookup_fmap.
  destruct (decide (b < k)%nat) as [Hlt|Hge].
  - rewrite lookup_replicate_2, lookup_seq_lt by done. simpl.
    f_equal. unfold getType, getTypes. lra.
  - rewrite lookup_seq_ge by lia.
    rewrite (proj1 (lookup_replicate_None k 0 b)) by lia. reflexivity.
Qed.

Lemma vertexScores_spec (logP : Matrix) (model : UndirectedBlockmodel)
  (k i : nat) :
  vertexScores logP model k i =
  mat_vec logP (spec_neighborCounts (getGraph model) (getTypes model) k i).
Proof. unfold vertexScores. by rewrite neiCountByType_spec. Qed.

(** After the first [j] iterations the model is untouched and the first [j]
    slots of the buffer hold the proposals. *)
Lemma sweep_prefix (logP : Matrix) (k n : nat) (model : UndirectedBlockmodel)
  (j : nat) :
  (j <= n)%nat ->
  foldl (step_vertex logP k) (model, replicate n 0%nat) (seq 0 j) =
  (model,
   map (fun i => max_element (vertexScores logP model k i)) (seq 0 j) ++
   replicate (n - j) 0%nat).
Proof.
  induction j as [|j IH]; intros Hj.
  - simpl. by rewrite Nat.sub_0_r.
  - rewrite seq_S, foldl_app, IH by lia. simpl.
    unfold step_vertex at 1. simpl. f_equal.
    rewrite map_app, <- app_assoc. simpl.
    rewrite insert_app_r_alt by (rewrite length_map, length_seq; lia).
    rewrite length_map, length_seq, Nat.sub_diag.
    replace (n - j)%nat with (S (n - S j)) by lia. reflexivity.
Qed.

Lemma sweep_spec (logP : Matrix) (k n : nat) (model : UndirectedBlockmodel) :
  sweep logP k n model =
  (model, map (fun i => max_element (vertexScores logP model k i)) (seq 0 n)).
Proof.
  unfold sweep. rewrite sweep_prefix by lia.
  by rewrite Nat.sub_diag, app_nil_r.
Qed.

(** The buffer of one sweep holds the proposals computed from the model as
    it was when [step] was called. *)
Lemma sweep_proposedTypes (model : UndirectedBlockmodel) :
  (sweep (logOddsMatrix (getProbabilities model)) (getNumTypes model)
         (vcount (getGraph model)) model).2 =
  proposedTypes (logOddsMatrix (getProbabilities model)) (getGraph model)
                (getTypes model) (getNumTypes model).
Proof.
  rewrite sweep_spec. simpl. unfold proposedTypes, proposedType.
  apply map_ext. intros i. by rewrite vertexScores_spec.
Qed.

(** [step], with the loop replaced by its result. *)
Lemma step_unfold (model : UndirectedBlockmodel) :
  step model =
  if decide (proposedTypes (logOddsMatrix (getProbabilities model))
               (getGraph model) (getTypes model) (getNumTypes model)
             <> getTypes model)
  then (setTypes model
          (proposedTypes (logOddsMatrix (getProbabilities model))
             (getGraph model) (getTypes model) (getNumTypes model)),
        true)
  else (model, false).
Proof.
  unfold step. rewrite sweep_proposedTypes. by rewrite sweep_spec.
Qed.

Lemma step_types (model : UndirectedBlockmodel) :
  getTypes (step model).1 =
  proposedTypes (logOddsMatrix (getProbabilities model)) (getGraph model)
                (getTypes model) (getNumTypes model).
Proof.
  rewrite step_unfold. destruct (decide _) as [Hne|Heq]; simpl.
  - reflexivity.
  - by apply dec_stable in Heq.
Qed.

(** ** Evaluating the step on models with two blocks *)

Lemma proposedType_two (a b c d n0 n1 : R) (g : Graph) (types : list nat)
  (i : nat) :
  spec_neighborCounts g types 2 i = [n0; n1] ->
  proposedType [[a; b]; [c; d]] g types 2 i =
  if Rlt_dec (a * n0 + b * n1) (c * n0 + d * n1) then 1%nat else 0%nat.
Proof.
  intros Hcnt. unfold proposedType. rewrite Hcnt. unfold mat_vec, dot. simpl.
  destruct (Rlt_dec _ _) as [H1|H1], (Rlt_dec _ _) as [H2|H2];
    try reflexivity; exfalso; lra.
Qed.

(** Settles every score comparison left in the goal from the facts about
    logarithms among the hypotheses. *)
Ltac decide_scores :=
  repeat match goal with
         | |- context [Rlt_dec ?x ?y] =>
             destruct (Rlt_dec x y) as [?H|?H]; simpl in *;
             try (exfalso; lra)
         end.

Ltac eval_probabilities :=
  unfold getProbabilities, freshModel, setTypes; simpl m_probabilities;
  unfold calcProbabilities, edgeProbability; simpl;
  repeat match goal with
         | |- @eq (list _) (_ :: _) (_ :: _) => apply (f_equal2 cons)
         | |- @eq (list _) [] [] => reflexivity
         | |- @eq R _ _ => lra
         end.

Ltac unfold_logOdds :=
  unfold proposedTypes, logOddsMatrix, spec_logOddsMatrix, spec_logOdds,
    matrix_sub, matrix_transform, log_1_minus_x;
  simpl map; simpl zip_with.

Lemma twoPaths_probabilities :
  getProbabilities twoPathsModel = [[2/3; 1/9]; [1/9; 2/3]].
Proof. unfold twoPathsModel. eval_probabilities. Qed.

Lemma tied_probabilities :
  getProbabilities tiedModel = [[2/3; 1/9]; [1/9; 2/3]].
Proof. unfold tiedModel. eval_probabilities. Qed.

Lemma lonely_probabilities :
  getProbabilities lonelyModel = [[2/3; 1/12]; [1/12; 1/3]].
Proof. unfold lonelyModel. eval_probabilities. Qed.

Lemma dense_probabilities :
  getProbabilities denseModel = [[2/3; 4/9]; [4/9; 1/3]].
Proof. unfold denseModel. eval_probabilities. Qed.

Lemma cross_probabilities :
  getProbabilities crossModel = [[2/3; 8/9]; [8/9; 1/3]].
Proof. unfold crossModel. eval_probabilities. Qed.

Lemma prism_probabilities :
  getProbabilities prismModel = [[2/3; 5/9]; [5/9; 2/3]].
Proof. unfold prismModel. eval_probabilities. Qed.

Lemma prismFixed_probabilities :
  getProbabilities prismFixedModel = [[1/3; 7/9]; [7/9; 1/3]].
Proof. unfold prismFixedModel. eval_probabilities. Qed.

Lemma freshModel_wellFormed (g : Graph) (k : nat) (types : list nat) :
  length types = vcount g ->
  Forall (fun t => (t < k)%nat) types ->
  wellFormed (freshModel g k types).
Proof. intros Hlen Hty. repeat split; assumption. Qed.

(** The two joined paths are a fixed point of the sweep. *)
Lemma twoPaths_proposed :
  proposedTypes (logOddsMatrix (getProbabilities twoPathsModel))
    (getGraph twoPathsModel) (getTypes twoPathsModel)
    (getNumTypes twoPathsModel) = [0; 0; 0; 1; 1; 1]%nat.
Proof.
  rewrite twoPaths_probabilities.
  assert (Hln : ln (1/9) < ln (2/3)) by (apply ln_increasing; lra).
  unfold_logOdds.
  repeat (erewrite proposedType_two by reflexivity).
  decide_scores. reflexivity.
Qed.

Lemma twoPaths_step : step twoPathsModel = (twoPathsModel, false).
Proof.
  rewrite step_unfold, twoPaths_proposed.
  destruct (decide _) as [Hne|_]; [|reflexivity].
  exfalso. by apply Hne.
Qed.

(** With the paths joined at their ends, vertices 2 and 3 score both blocks
    alike and are proposed for block 0. *)
Lemma tied_proposed :
  proposedTypes (logOddsMatrix (getProbabilities tiedModel))
    (getGraph tiedModel) (getTypes tiedModel)
    (getNumTypes tiedModel) = [0; 0; 0; 0; 1; 1]%nat.
Proof.
  rewrite tied_probabilities.
  assert (Hln : ln (1/9) < ln (2/3)) by (apply ln_increasing; lra).
  unfold_logOdds.
  repeat (erewrite proposedType_two by reflexivity).
  decide_scores. reflexivity.
Qed.

(** ** The claims about [GreedyStrategy::step] and [optimize] *)

Lemma sweep_keeps_model (logP : Matrix) (k : nat) (vs : list nat)
  (st : SweepState) :
  (foldl (step_vertex logP k) st vs).1 = st.1.
Proof.
  revert st. induction vs as [|v vs IH]; intros st; simpl; [done|].
  by rewrite IH.
Qed.

(** C3 — [step] works on a frozen snapshot.  No iteration of the loop over
    the vertices changes the model, whatever vertices were visited before
    and whatever the buffer holds; the buffer [newTypes] ends up holding, for
    every vertex, the proposal computed from the assignment and the
    probability matrix as they were when [step] was called; and the only
    write to the model is the single [setTypes] of the whole buffer. *)
Theorem step_frozen_snapshot (model : UndirectedBlockmodel) :
  let L := logOddsMatrix (getProbabilities model) in
  let k := getNumTypes model in
  let n := vcount (getGraph model) in
  let proposals := proposedTypes L (getGraph model) (getTypes model) k in
  (forall (vs : list nat) (buffer : list nat),
     (foldl (step_vertex L k) (model, buffer) vs).1 = model) /\
  sweep L k n model = (model, proposals) /\
  getTypes (step model).1 = proposals /\
  ((step model).1 = setTypes model proposals \/ (step model).1 = model).
Proof.
  intros L k n proposals. repeat split.
  - intros vs buffer. by rewrite sweep_keeps_model.
  - pose proof (sweep_proposedTypes model) as Hbuf.
    pose proof (sweep_keeps_model L k (seq 0 n) (model, replicate n 0%nat))
      as Hmodel.
    fold L k n proposals in Hbuf. unfold sweep in *. simpl in Hmodel.
    destruct (foldl _ _ _) as [m b]. simpl in *. by subst.
  - apply step_types.
  - rewrite step_unfold. fold L k proposals.
    destruct (decide _); simpl; auto.
Qed.

(** Two different assignments differ at some vertex. *)
Lemma list_neq_lookup (l1 l2 : list nat) :
  l1 <> l2 -> exists v : nat, l1 !! v <> l2 !! v.
Proof.
  revert l2. induction l1 as [|x l1 IH]; intros [|y l2] Hne.
  - done.
  - by exists 0%nat.
  - by exists 0%nat.
  - destruct (decide (x = y)) as [->|Hxy].
    + destruct (IH l2) as [v Hv]; [congruence|]. by exists (S v).
    + exists 0%nat. simpl. congruence.
Qed.

(** C5 — [step] returns true exactly when the assignment of some vertex
    after the call differs from the one before it, and a call that returns
    false leaves the whole model, derived state included, as it was. *)
Theorem step_reports_change (model : UndirectedBlockmodel) :
  ((step model).2 = true <->
   exists v : nat,
     getTypes (step model).1 !! v <> getTypes model !! v) /\
  ((step model).2 = false -> (step model).1 = model).
Proof.
  rewrite step_unfold. destruct (decide _) as [Hne|Heq]; simpl.
  - split; [|discriminate]. split; [intros _|done].
    by apply list_neq_lookup.
  - split; [|done]. split; [discriminate|].
    intros [v Hv]. by destruct Hv.
Qed.

Lemma step_reports_change_witness :
  (step twoPathsModel).2 = false /\ (step twoPathsModel).1 = twoPathsModel.
Proof.
  assert (H : (step twoPathsModel).2 = false) by (by rewrite twoPaths_step).
  split; [exact H|].
  exact (proj2 (step_reports_change twoPathsModel) H).
Defined.

(** C6 — once [optimize] has returned, which it does only after [step]
    returned false, a further [step] on the model it left changes nothing
    and returns false again. *)
Theorem optimize_idempotent_at_fixed_point (fuel : nat)
  (model model' : UndirectedBlockmodel) :
  optimize fuel model = Some model' ->
  step model' = (model', false).
Proof.
  revert model. induction fuel as [|fuel IH]; intros model; simpl.
  - discriminate.
  - destruct (step model) as [m changed] eqn:Hstep. simpl.
    destruct changed.
    + apply IH.
    + intros [= <-]. rewrite step_unfold in Hstep.
      destruct (decide _) as [Hne|Heq] in Hstep; [discriminate|].
      injection Hstep as <-. rewrite step_unfold.
      destruct (decide _); [contradiction|reflexivity].
Qed.

(** On the prism one sweep moves four vertices and the next one moves
    none. *)
Lemma prism_proposed :
  proposedTypes (logOddsMatrix (getProbabilities prismModel))
    (getGraph prismModel) (getTypes prismModel)
    (getNumTypes prismModel) = [0; 1; 0; 1; 0; 1]%nat.
Proof.
  rewrite prism_probabilities.
  assert (Hln : ln (5/9) < ln (2/3)) by (apply ln_increasing; lra).
  unfold_logOdds.
  repeat (erewrite proposedType_two by reflexivity).
  decide_scores. reflexivity.
Qed.

Lemma prismFixed_proposed :
  proposedTypes (logOddsMatrix (getProbabilities prismFixedModel))
    (getGraph prismFixedModel) (getTypes prismFixedModel)
    (getNumTypes prismFixedModel) = [0; 1; 0; 1; 0; 1]%nat.
Proof.
  rewrite prismFixed_probabilities.
  assert (Hln : ln (1/3) < ln (7/9)) by (apply ln_increasing; lra).
  unfold_logOdds.
  repeat (erewrite proposedType_two by reflexivity).
  decide_scores. reflexivity.
Qed.

Lemma prism_step : step prismModel = (prismFixedModel, true).
Proof.
  rewrite step_unfold, prism_proposed.
  destruct (decide _) as [_|Heq]; [reflexivity|].
  exfalso. apply Heq. discriminate.
Qed.

Lemma prismFixed_step : step prismFixedModel = (prismFixedModel, false).
Proof.
  rewrite step_unfold, prismFixed_proposed.
  destruct (decide _) as [Hne|_]; [|reflexivity].
  exfalso. by apply Hne.
Qed.

Lemma prism_optimize : optimize 2 prismModel = Some prismFixedModel.
Proof.
  simpl. rewrite prism_step. simpl. by rewrite prismFixed_step.
Qed.

Lemma optimize_idempotent_at_fixed_point_witness :
  optimize 2 prismModel = Some prismFixedModel /\
  step prismFixedModel = (prismFixedModel, false).
Proof.
  split; [exact prism_optimize|].
  exact (optimize_idempotent_at_fixed_point 2 prismModel prismFixedModel
           prism_optimize).
Defined.

Lemma proposedTypes_lookup (L : Matrix) (g : Graph) (types : list nat)
  (k i t : nat) :
  proposedTypes L g types k !! i = Some t <->
  (i < vcount g)%nat /\ t = proposedType L g types k i.
Proof.
  unfold proposedTypes. change (map ?f ?l) with (f <$> l).
  rewrite list_lookup_fmap. split.
  - intros Hi. destruct (seq 0 (vcount g) !! i) as [j|] eqn:Hj; [|done].
    apply lookup_seq in Hj as [-> Hlt]. simpl in Hi. split; [done|].
    congruence.
  - intros [Hlt ->]. by rewrite lookup_seq_lt.
Qed.





Lemma dot_zeros (row : list R) (k : nat) : dot row (replicate k 0) = 0.
Proof.
  unfold dot. revert k. induction row as [|x row IH]; intros [|k]; simpl;
    try reflexivity.
  rewrite IH. lra.
Qed.

Lemma max_element_from_flat (l : list R) (best i : nat) (c : R) :
  Forall (fun x => x = c) l -> max_element_from best c i l = best.
Proof.
  revert i. induction l as [|x l IH]; intros i Hall; simpl; [done|].
  apply Forall_cons in Hall as [-> Hl].
  destruct (Rlt_dec c c) as [Hlt|_]; [lra|]. by apply IH.
Qed.

Lemma max_element_flat (l : list R) (c : R) :
  Forall (fun x => x = c) l -> max_element l = 0%nat.
Proof.
  destruct l as [|x l]; [done|]. intros Hall.
  apply Forall_cons in Hall as [-> Hl]. simpl.
  by apply max_element_from_flat.
Qed.

Lemma isolated_scores_zero (model : UndirectedBlockmodel) (L : Matrix)
  (i : nat) :
  neighbors (getGraph model) i = [] ->
  Forall (fun s => s = 0) (vertexScores L model (getNumTypes model) i).
Proof.
  intros Hiso. unfold vertexScores, neiCountByType. rewrite Hiso. simpl.
  unfold mat_vec. induction L as [|row L IH]; simpl; constructor.
  - apply dot_zeros.
  - exact IH.
Qed.

(** C10 — a vertex without neighbours goes to block 0.  In a model whose
    block-pair probabilities all lie strictly between 0 and 1, such a vertex
    has the zero vector as its neighbour counts, every candidate score is 0,
    and [step] assigns it block 0. *)
Theorem step_isolated_vertex (model : UndirectedBlockmodel) (i : nat) :
  Forall (Forall (fun p => 0 < p < 1)) (getProbabilities model) ->
  (i < vcount (getGraph model))%nat ->
  neighbors (getGraph model) i = [] ->
  neiCountByType model (getNumTypes model) (neighbors (getGraph model) i) =
    replicate (getNumTypes model) 0 /\
  Forall (fun s => s = 0)
    (vertexScores (logOddsMatrix (getProbabilities model)) model
                  (getNumTypes model) i) /\
  getTypes (step model).1 !! i = Some 0%nat.
Proof.
  intros _ Hi Hiso. split; [by rewrite Hiso|]. split.
  - by apply isolated_scores_zero.
  - rewrite step_types. apply proposedTypes_lookup. split; [exact Hi|].
    unfold proposedType. rewrite <- vertexScores_spec. symmetry.
    apply (max_element_flat _ 0). by apply isolated_scores_zero.
Qed.

Lemma step_isolated_vertex_witness :
  Forall (Forall (fun p => 0 < p < 1)) (getProbabilities lonelyModel) /\
  (6 < vcount (getGraph lonelyModel))%nat /\
  neighbors (getGraph lonelyModel) 6 = [] /\
  getTypes lonelyModel !! 6%nat = Some 1%nat /\
  getTypes (step lonelyModel).1 !! 6%nat = Some 0%nat.
Proof.
  assert (HP : Forall (Forall (fun p => 0 < p < 1))
                 (getProbabilities lonelyModel)).
  { rewrite lonely_probabilities. repeat constructor; lra. }
  assert (Hi : (6 < vcount (getGraph lonelyModel))%nat) by (simpl; lia).
  assert (Hiso : neighbors (getGraph lonelyModel) 6 = []) by reflexivity.
  repeat (split; [assumption || reflexivity|]).
  exact (proj2 (proj2 (step_isolated_vertex lonelyModel 6 HP Hi Hiso))).
Defined.

(** ** The log-likelihood across a step *)

Local Arguments bernoulliTerm : simpl never.

Lemma ln_quotient (x y : R) : 0 < x -> 0 < y -> ln (x / y) = ln x - ln y.
Proof.
  intros Hx Hy. unfold Rdiv.
  rewrite ln_mult by (try apply Rinv_0_lt_compat; assumption).
  rewrite ln_Rinv by assumption. lra.
Qed.

Lemma bernoulliTerm_eval (e N : nat) :
  (0 < e)%nat -> (e < N)%nat ->
  bernoulliTerm e N =
  INR e * (ln (INR e) - ln (INR N)) +
  INR (N - e) * (ln (INR (N - e)) - ln (INR N)).
Proof.
  intros He HN. unfold bernoulliTerm.
  destruct (Nat.eqb_spec N 0); [lia|].
  destruct (Nat.eqb_spec e 0); [lia|].
  destruct (Nat.eqb_spec e N); [lia|]. simpl.
  assert (0 < INR e) by (apply lt_0_INR; lia).
  assert (0 < INR N) by (apply lt_0_INR; lia).
  assert (0 < INR (N - e)) by (apply lt_0_INR; lia).
  rewrite <- !ln_quotient by assumption.
  replace (1 - INR e / INR N) with (INR (N - e) / INR N); [reflexivity|].
  rewrite minus_INR by lia. field. lra.
Qed.

Lemma ln_4 : ln 4 = 2 * ln 2.
Proof. replace 4 with (2 * 2) by lra. rewrite ln_mult by lra. lra. Qed.

Lemma ln_8 : ln 8 = 3 * ln 2.
Proof.
  replace 8 with (2 * (2 * 2)) by lra. rewrite !ln_mult by lra. lra.
Qed.

Lemma ln_9 : ln 9 = 2 * ln 3.
Proof. replace 9 with (3 * 3) by lra. rewrite ln_mult by lra. lra. Qed.




(** So they are with the log-odds the specification words. *)
Lemma dense_spec_proposed :
  proposedTypes (spec_logOddsMatrix (getProbabilities denseModel))
    (getGraph denseModel) (getTypes denseModel)
    (getNumTypes denseModel) = [0; 0; 0; 0; 0; 0]%nat.
Proof.
  rewrite dense_probabilities.
  assert (Hln1 : ln (1/3) < ln (4/9)) by (apply ln_increasing; lra).
  assert (Hln2 : ln (4/9) < ln (2/3)) by (apply ln_increasing; lra).
  assert (Hln3 : ln (1 - 2/3) < ln (1 - 4/9)) by (apply ln_increasing; lra).
  assert (Hln4 : ln (1 - 4/9) < ln (1 - 1/3)) by (apply ln_increasing; lra).
  unfold_logOdds.
  repeat (erewrite proposedType_two by reflexivity).
  decide_scores. reflexivity.
Qed.


(** Replaces the edge and pair tallies of a concrete model by their
    values. *)
Ltac eval_tallies :=
  repeat match goal with
         | |- context [countEdges ?g ?t ?a ?b] =>
             let v := eval vm_compute in (countEdges g t a b) in
             change (countEdges g t a b) with v
         | |- context [countPairs ?t ?a ?b] =>
             let v := eval vm_compute in (countPairs t a b) in
             change (countPairs t a b) with v
         end.

(** Turns the injections of concrete naturals into numerals. *)
Ltac eval_INR :=
  rewrite !INR_IZR_INZ;
  repeat match goal with
         | |- context [Z.of_nat ?n] =>
             let v := eval vm_compute in (Z.of_nat n) in
             change (Z.of_nat n) with v
         end.







(** ** The scores and the log-odds *)

Lemma ln_neg (p : R) : 0 < p < 1 -> ln p < 0.
Proof. intros [H0 H1]. rewrite <- ln_1. by apply ln_increasing. Qed.

(** What [step] subtracts from [log p] is [1 - log p], so its matrix entry
    is [2 log p - 1]. *)
Lemma logOddsMatrix_entry (p : R) :
  logOddsMatrix [[p]] = [[2 * ln p - 1]].
Proof.
  unfold logOddsMatrix, matrix_sub, matrix_transform, log_1_minus_x. simpl.
  do 2 f_equal. lra.
Qed.

(** For every probability strictly between 0 and 1 that entry lies strictly
    below the log-odds. *)
Lemma code_entry_below_logOdds (p : R) :
  0 < p < 1 -> ln p - log_1_minus_x p < spec_logOdds p.
Proof.
  intros Hp. unfold log_1_minus_x, spec_logOdds.
  pose proof (ln_neg p Hp). pose proof (ln_neg (1 - p) ltac:(lra)). lra.
Qed.

Lemma ln_2_pos : 0 < ln 2.
Proof. rewrite <- ln_1. apply ln_increasing; lra. Qed.

Lemma ln_8_lt_9 : 3 * ln 2 < 2 * ln 3.
Proof. rewrite <- ln_8, <- ln_9. apply ln_increasing; lra. Qed.

Lemma ln_3_lt_4 : ln 3 < 2 * ln 2.
Proof. rewrite <- ln_4. apply ln_increasing; lra. Qed.

Lemma ln_two_thirds : ln (2/3) = ln 2 - ln 3.
Proof. apply ln_quotient; lra. Qed.

Lemma ln_one_third : ln (1/3) = - ln 3.
Proof. rewrite ln_quotient, ln_1 by lra. lra. Qed.

Lemma ln_one_ninth : ln (1/9) = - 2 * ln 3.
Proof. rewrite ln_quotient, ln_1, ln_9 by lra. lra. Qed.

Lemma ln_eight_ninths : ln (8/9) = 3 * ln 2 - 2 * ln 3.
Proof. rewrite ln_quotient, ln_8, ln_9 by lra. lra. Qed.

(** The facts about logarithms that settle the scores of the cross model. *)
Ltac cross_facts :=
  pose proof ln_2_pos; pose proof ln_8_lt_9; pose proof ln_3_lt_4;
  pose proof ln_two_thirds; pose proof ln_one_third;
  pose proof ln_eight_ninths;
  assert (ln (1 - 2/3) = - ln 3)
    by (replace (1 - 2/3) with (1/3) by lra; apply ln_one_third);
  assert (ln (1 - 8/9) = - 2 * ln 3)
    by (replace (1 - 8/9) with (1/9) by lra; apply ln_one_ninth);
  assert (ln (1 - 1/3) = ln 2 - ln 3)
    by (replace (1 - 1/3) with (2/3) by lra; apply ln_two_thirds).

Lemma cross_proposed :
  proposedTypes (logOddsMatrix (getProbabilities crossModel))
    (getGraph crossModel) (getTypes crossModel)
    (getNumTypes crossModel) = [0; 0; 0; 0; 0; 1]%nat.
Proof.
  rewrite cross_probabilities. cross_facts.
  unfold_logOdds.
  repeat (erewrite proposedType_two by reflexivity).
  decide_scores. reflexivity.
Qed.

Lemma cross_spec_proposed :
  proposedTypes (spec_logOddsMatrix (getProbabilities crossModel))
    (getGraph crossModel) (getTypes crossModel)
    (getNumTypes crossModel) = [0; 0; 0; 1; 1; 1]%nat.
Proof.
  rewrite cross_probabilities. cross_facts.
  unfold_logOdds.
  repeat (erewrite proposedType_two by reflexivity).
  decide_scores. reflexivity.
Qed.

(** C1 — the scores of [step] are not the inner products with the log-odds
    rows.  On the cross model the entry that [step] computes for the
    probability 2/3 is [2 log(2/3) - 1] where the log-odds are
    [log(2/3) - log(1/3)]; with its matrix [step] moves vertices 3 and 4 to
    block 0, whereas the scores against the log-odds rows keep every vertex
    in its block. *)
Theorem step_scores_differ_from_logOdds :
  matrix_get (logOddsMatrix (getProbabilities crossModel)) 0 0 =
    2 * ln (2/3) - 1 /\
  matrix_get (spec_logOddsMatrix (getProbabilities crossModel)) 0 0 =
    ln (2/3) - ln (1 - 2/3) /\
  matrix_get (logOddsMatrix (getProbabilities crossModel)) 0 0 <
    matrix_get (spec_logOddsMatrix (getProbabilities crossModel)) 0 0 /\
  getTypes crossModel = [0; 0; 0; 1; 1; 1]%nat /\
  getTypes (step crossModel).1 = [0; 0; 0; 0; 0; 1]%nat /\
  proposedTypes (spec_logOddsMatrix (getProbabilities crossModel))
    (getGraph crossModel) (getTypes crossModel)
    (getNumTypes crossModel) = [0; 0; 0; 1; 1; 1]%nat.
Proof.
  assert (Hcode :
    matrix_get (logOddsMatrix (getProbabilities crossModel)) 0 0 =
    2 * ln (2/3) - 1).
  { rewrite cross_probabilities.
    unfold matrix_get, logOddsMatrix, matrix_sub, matrix_transform,
      log_1_minus_x. simpl. lra. }
  assert (Hspec :
    matrix_get (spec_logOddsMatrix (getProbabilities crossModel)) 0 0 =
    ln (2/3) - ln (1 - 2/3)).
  { rewrite cross_probabilities. reflexivity. }
  repeat split.
  - exact Hcode.
  - exact Hspec.
  - rewrite Hcode, Hspec.
    pose proof (code_entry_below_logOdds (2/3) ltac:(lra)) as Hlt.
    unfold log_1_minus_x, spec_logOdds in Hlt. lra.
  - rewrite step_types. apply cross_proposed.
  - apply cross_spec_proposed.
Qed.

(** ** The sampling run and the best model *)

Section SamplingProperties.

Context `{Collaborators}.

(** What one completed iteration of [runBlock] does to the best model. *)
Lemma runBlock_body_best (st st' : App * Vector) :
  runBlock_body st = Done st' ->
  exists live : UndirectedBlockmodel,
    m_pModel st'.1 = Some live /\
    st'.2 = st.2 ++ [getLogLikelihood live] /\
    if Rlt_dec (m_bestLogL st.1) (getLogLikelihood live)
    then m_bestModel st'.1 = live /\
         m_bestLogL st'.1 = getLogLikelihood live
    else m_bestModel st'.1 = m_bestModel st.1 /\
         m_bestLogL st'.1 = m_bestLogL st.1.
Proof.
  unfold runBlock_body. destruct st as [app samples]. simpl.
  destruct (m_pModel app) as [model|]; [|discriminate].
  set (r := mcmc_step (m_mcmc app) model).
  destruct (Rlt_dec (m_bestLogL app) (getLogLikelihood r.2)) as [Hlt|Hge];
    simpl; destruct (logPeriod (m_args app) =? 0)%Z; try discriminate;
    intros [= <-]; exists r.2; simpl;
    destruct (m_dumpBestStateFlag app); simpl;
    destruct (Rlt_dec _ _); try contradiction; auto.
Qed.

Lemma runBlock_body_monotone (st st' : App * Vector) :
  runBlock_body st = Done st' -> m_bestLogL st.1 <= m_bestLogL st'.1.
Proof.
  intros Hbody. destruct (runBlock_body_best st st' Hbody)
    as (live & _ & _ & Hbest).
  destruct (Rlt_dec _ _) as [Hlt|Hge]; destruct Hbest as [_ ->]; lra.
Qed.

Lemma sampling_step_monotone (st st' : App * Vector) :
  sampling_step st st' -> m_bestLogL st.1 <= m_bestLogL st'.1.
Proof.
  intros [st1 st2 Hbody|st1].
  - by apply runBlock_body_monotone.
  - simpl. lra.
Qed.

Lemma sampling_run_monotone (st st' : App * Vector) :
  rtc sampling_step st st' -> m_bestLogL st.1 <= m_bestLogL st'.1.
Proof.
  induction 1 as [st|st st1 st2 Hstep _ IH]; [lra|].
  apply sampling_step_monotone in Hstep. lra.
Qed.

(** A call of [runBlock] is a sequence of such iterations. *)
Lemma runBlock_loop_steps (n : nat) (st st' : App * Vector) :
  runBlock_loop n st = Done st' -> rtc sampling_step st st'.
Proof.
  revert st. induction n as [|n IH]; intros st; simpl.
  - intros [= <-]. apply rtc_refl.
  - destruct (runBlock_body st) as [st1| | |] eqn:Hbody; simpl;
      try discriminate.
    intros Hrest. eapply rtc_l; [by apply sampling_iteration|by apply IH].
Qed.

(** A call of [runBlock] completes when the live model exists and the log
    period is not zero. *)
Lemma runBlock_loop_completes (n : nat) (st : App * Vector) :
  is_Some (m_pModel st.1) ->
  logPeriod (m_args st.1) <> 0%Z ->
  exists st', runBlock_loop n st = Done st'.
Proof.
  revert st. induction n as [|n IH]; intros st Hmodel Hperiod; simpl.
  - by exists st.
  - destruct st as [app samples]. simpl in *.
    destruct Hmodel as [model Hmodel].
    unfold runBlock_body. simpl. rewrite Hmodel.
    set (r := mcmc_step (m_mcmc app) model).
    destruct (Rlt_dec _ _); simpl;
      destruct (Z.eqb_spec (logPeriod (m_args app)) 0); try contradiction;
      simpl; apply IH; simpl;
      destruct (m_dumpBestStateFlag app); simpl; eauto.
Qed.

(** The two ways an iteration goes when no dump is pending. *)
Lemma runBlock_body_improving (app : App) (samples : Vector)
  (model : UndirectedBlockmodel) :
  m_pModel app = Some model ->
  logPeriod (m_args app) <> 0%Z ->
  m_dumpBestStateFlag app = false ->
  m_bestLogL app <
    getLogLikelihood (mcmc_step (m_mcmc app) model).2 ->
  runBlock_body (app, samples) =
  Done (setBest (setLive app (mcmc_step (m_mcmc app) model).1
                         (mcmc_step (m_mcmc app) model).2)
                (mcmc_step (m_mcmc app) model).2
                (getLogLikelihood (mcmc_step (m_mcmc app) model).2),
        samples ++ [getLogLikelihood (mcmc_step (m_mcmc app) model).2]).
Proof.
  intros Hmodel Hperiod Hflag Hlt. unfold runBlock_body. simpl.
  rewrite Hmodel. destruct (Rlt_dec _ _) as [_|Hge]; [|contradiction].
  simpl. destruct (Z.eqb_spec (logPeriod (m_args app)) 0); [contradiction|].
  by rewrite Hflag.
Qed.

Lemma runBlock_body_not_improving (app : App) (samples : Vector)
  (model : UndirectedBlockmodel) :
  m_pModel app = Some model ->
  logPeriod (m_args app) <> 0%Z ->
  m_dumpBestStateFlag app = false ->
  ~ m_bestLogL app <
      getLogLikelihood (mcmc_step (m_mcmc app) model).2 ->
  runBlock_body (app, samples) =
  Done (setLive app (mcmc_step (m_mcmc app) model).1
                (mcmc_step (m_mcmc app) model).2,
        samples ++ [getLogLikelihood (mcmc_step (m_mcmc app) model).2]).
Proof.
  intros Hmodel Hperiod Hflag Hge. unfold runBlock_body. simpl.
  rewrite Hmodel. destruct (Rlt_dec _ _) as [Hlt|_]; [contradiction|].
  simpl. destruct (Z.eqb_spec (logPeriod (m_args app)) 0); [contradiction|].
  by rewrite Hflag.
Qed.

(** C8 — the best-model snapshot.  At every point of a sampling run —
    after any number of completed iterations of [runBlock], with the signal
    handler running in between — the next iteration copies the live model
    into [m_bestModel] and records its log-likelihood exactly when that
    log-likelihood is strictly above the recorded best, and leaves both as
    they were otherwise; the recorded best never decreases, neither up to
    that point nor across the iteration. *)
Theorem sampling_best_snapshot (st st1 st2 : App * Vector) :
  rtc sampling_step st st1 ->
  runBlock_body st1 = Done st2 ->
  m_bestLogL st.1 <= m_bestLogL st1.1 /\
  m_bestLogL st1.1 <= m_bestLogL st2.1 /\
  exists live : UndirectedBlockmodel,
    m_pModel st2.1 = Some live /\
    if Rlt_dec (m_bestLogL st1.1) (getLogLikelihood live)
    then m_bestModel st2.1 = live /\
         m_bestLogL st2.1 = getLogLikelihood live
    else m_bestModel st2.1 = m_bestModel st1.1 /\
         m_bestLogL st2.1 = m_bestLogL st1.1.
Proof.
  intros Hrun Hbody. split; [by apply sampling_run_monotone|].
  split; [by apply runBlock_body_monotone|].
  destruct (runBlock_body_best st1 st2 Hbody) as (live & Hlive & _ & Hbest).
  by exists live.
Qed.

End SamplingProperties.

Lemma prism_logLikelihood :
  getLogLikelihood prismModel = 12 * ln 2 + 5 * ln 5 - 24 * ln 3.
Proof.
  unfold getLogLikelihood, prismModel, freshModel, setTypes.
  simpl m_logLikelihood. unfold calcLogLikelihood. simpl. eval_tallies.
  rewrite !bernoulliTerm_eval by lia.
  eval_INR. rewrite ln_4, ln_9, ln_1. lra.
Qed.

Lemma prismFixed_logLikelihood :
  getLogLikelihood prismFixedModel = 6 * ln 2 + 7 * ln 7 - 24 * ln 3.
Proof.
  unfold getLogLikelihood, prismFixedModel, freshModel, setTypes.
  simpl m_logLikelihood. unfold calcLogLikelihood. simpl. eval_tallies.
  rewrite !bernoulliTerm_eval by lia.
  eval_INR. rewrite ln_9, ln_1. lra.
Qed.

(** 2^6 * 5^5 < 7^7, read through the logarithm. *)
Lemma ln_prism_gap : 6 * ln 2 + 5 * ln 5 < 7 * ln 7.
Proof.
  assert (H : ln (2^6 * 5^5) < ln (7^7)) by (apply ln_increasing; lra).
  rewrite !ln_mult, !ln_pow in H by lra.
  simpl in H. lra.
Qed.

Lemma prism_logLikelihood_lt :
  getLogLikelihood prismModel < getLogLikelihood prismFixedModel.
Proof.
  rewrite prism_logLikelihood, prismFixed_logLikelihood.
  pose proof ln_prism_gap. lra.
Qed.

Section ScriptedRuns.

Local Existing Instance toyCollaborators.

(** The first scripted step reaches the fixed assignment of the prism, a
    strictly better model, which becomes the best model. *)
Lemma toy_iteration_improves :
  runBlock_body
    (toyChain [[0; 1; 0; 1; 0; 1]; [0; 0; 1; 0; 1; 1]]%nat
              prismModel prismModel, []) =
  Done (toyChain [[0; 0; 1; 0; 1; 1]]%nat prismFixedModel prismFixedModel,
        [getLogLikelihood prismFixedModel]).
Proof.
  rewrite (runBlock_body_improving _ _ prismModel);
    [reflexivity|reflexivity|discriminate|reflexivity|].
  apply prism_logLikelihood_lt.
Qed.

(** The second one goes back to a worse model, and the best model stays. *)
Lemma toy_iteration_keeps :
  runBlock_body
    (toyChain [[0; 0; 1; 0; 1; 1]]%nat prismFixedModel prismFixedModel,
     [getLogLikelihood prismFixedModel]) =
  Done (toyChain [] prismModel prismFixedModel,
        [getLogLikelihood prismFixedModel; getLogLikelihood prismModel]).
Proof.
  rewrite (runBlock_body_not_improving _ _ prismFixedModel);
    [reflexivity|reflexivity|discriminate|reflexivity|].
  pose proof prism_logLikelihood_lt as Hlt. intros Hgt.
  change (getLogLikelihood prismFixedModel < getLogLikelihood prismModel)
    in Hgt. lra.
Qed.

Lemma sampling_best_snapshot_witness :
  runBlock_loop 1
    (toyChain [[0; 1; 0; 1; 0; 1]; [0; 0; 1; 0; 1; 1]]%nat
              prismModel prismModel, []) =
    Done (toyChain [[0; 0; 1; 0; 1; 1]]%nat prismFixedModel
                   prismFixedModel,
          [getLogLikelihood prismFixedModel]) /\
  getLogLikelihood prismModel <= getLogLikelihood prismFixedModel /\
  m_bestModel
    (toyChain [] prismModel prismFixedModel) = prismFixedModel.
Proof.
  assert (Hloop :
    runBlock_loop 1
      (toyChain [[0; 1; 0; 1; 0; 1]; [0; 0; 1; 0; 1; 1]]%nat
                prismModel prismModel, []) =
    Done (toyChain [[0; 0; 1; 0; 1; 1]]%nat prismFixedModel
                   prismFixedModel,
          [getLogLikelihood prismFixedModel]))
    by (simpl; by rewrite toy_iteration_improves).
  split; [exact Hloop|].
  pose proof (sampling_best_snapshot _ _ _
                (runBlock_loop_steps _ _ _ Hloop) toy_iteration_keeps)
    as (Hmono & _ & _).
  split; [exact Hmono|reflexivity].
Defined.

End ScriptedRuns.

(** ** Loading the graph and searching for the type count *)

Lemma INR_le_sqrt (k n : nat) :
  INR k <= sqrt (INR n) <-> (k <= Nat.sqrt n)%nat.
Proof.
  pose proof (pos_INR k). pose proof (pos_INR n). split.
  - intros Hle. apply Nat.sqrt_le_square, INR_le.
    rewrite mult_INR, <- (sqrt_sqrt (INR n)) by assumption.
    by apply Rmult_le_compat.
  - intros Hle. apply Nat.sqrt_le_square, le_INR in Hle.
    rewrite mult_INR in Hle. apply sqrt_le_1_alt in Hle.
    by rewrite sqrt_square in Hle.
Qed.

Lemma candidates_range (n k : nat) :
  k ∈ candidates n <-> (2 <= k)%nat /\ (k * k <= n)%nat.
Proof.
  unfold candidates. rewrite elem_of_seq, Nat.sqrt_le_square.
  pose proof (Nat.sqrt_le_square n k). lia.
Qed.

Section DriverProperties.

Context `{Collaborators}.

Implicit Types bic : UndirectedBlockmodel -> R.

(** The loop over [k] visits the candidates in order. *)
Lemma searchLoop_searchList bic (budget fuel n k : nat) (s : Search) :
  (Nat.sqrt n + 1 - k <= budget)%nat ->
  searchLoop bic budget fuel n k s =
  searchList bic fuel (seq k (Nat.sqrt n + 1 - k)) s.
Proof.
  revert k s. induction budget as [|budget IH]; intros k s Hbudget;
    simpl; destruct (Rle_dec (INR k) (sqrt (INR n))) as [Hle|Hgt].
  - apply INR_le_sqrt in Hle. lia.
  - rewrite INR_le_sqrt in Hgt.
    by replace (Nat.sqrt n + 1 - k)%nat with 0%nat by lia.
  - apply INR_le_sqrt in Hle.
    replace (Nat.sqrt n + 1 - k)%nat with (S (Nat.sqrt n + 1 - S k))
      by lia.
    simpl. destruct (trySearch bic fuel k s); simpl; try reflexivity.
    apply IH. lia.
  - rewrite INR_le_sqrt in Hgt.
    by replace (Nat.sqrt n + 1 - k)%nat with 0%nat by lia.
Qed.

Lemma searchLoop_candidates bic (fuel n : nat) (s : Search) :
  searchLoop bic n fuel n 2 s = searchList bic fuel (candidates n) s.
Proof.
  rewrite searchLoop_searchList by (pose proof (Nat.sqrt_le_lin n); lia).
  unfold candidates. f_equal. f_equal. lia.
Qed.

(** A fit returns only after the criterion accepted a block. *)
Lemma chainUntilConverged_ends (fuel : nat) (crit : Criterion)
  (app app' : App) :
  chainUntilConverged fuel crit app = Done app' -> endsConverged app'.
Proof.
  revert crit app. induction fuel as [|fuel IH]; intros crit app; simpl;
    [discriminate|].
  destruct (runBlock (blockSize (m_args app)) app) as [st| | |] eqn:Hblock;
    simpl; try discriminate.
  destruct (check crit st.2) as [converged crit'] eqn:Hcheck. simpl.
  destruct converged.
  - intros [= <-]. exists crit, app, st.2. rewrite Hcheck.
    split; [|reflexivity]. by destruct st.
  - apply IH.
Qed.

Lemma fitForGivenGroupCount_ends (fuel k : nat) (app app' : App) :
  fitForGivenGroupCount fuel k app = Done app' -> endsConverged app'.
Proof.
  unfold fitForGivenGroupCount.
  destruct (initModel fuel k app); simpl; try discriminate.
  apply chainUntilConverged_ends.
Qed.

Lemma fitAll_ends (fuel : nat) (ks : list nat) (app : App)
  (fits : list App) :
  fitAll fuel ks app = Done fits -> Forall endsConverged fits.
Proof.
  revert app fits. induction ks as [|k ks IH]; intros app fits; simpl.
  - intros [= <-]. constructor.
  - destruct (fitForGivenGroupCount fuel k app) as [app1| | |] eqn:Hfit;
      simpl; try discriminate.
    destruct (fitAll fuel ks app1) as [rest| | |] eqn:Hrest; simpl;
      try discriminate.
    intros [= <-]. constructor.
    + by eapply fitForGivenGroupCount_ends.
    + by eapply IH.
Qed.

(** The search keeps the first fit whose AIC is below every AIC seen
    before and below the initial bound, if there is one. *)
Lemma searchList_selects bic (fuel : nat) (ks : list nat)
  (s s' : Search) :
  searchList bic fuel ks s = Done s' ->
  exists fits : list App,
    fitAll fuel ks (s_app s) = Done fits /\
    ((bestAIC s' = bestAIC s /\ bestModel s' = bestModel s /\
      Forall (fun a => bestAIC s <= aic (m_bestModel a)) fits) \/
     (exists j a, firstMinAIC fits j a /\
                  bestModel s' = m_bestModel a /\
                  bestAIC s' = aic (m_bestModel a) /\
                  aic (m_bestModel a) < bestAIC s)).
Proof.
  revert s s'. induction ks as [|k ks IH]; intros s s'; simpl.
  - intros [= <-]. exists []. repeat split. left. repeat split.
    constructor.
  - unfold trySearch at 1.
    destruct (fitForGivenGroupCount fuel k (s_app s)) as [app1| | |]
      eqn:Hfit; simpl; try discriminate.
    intros Hrest. apply IH in Hrest as (fits & Hfits & Hsel).
    simpl in Hfits, Hsel. rewrite Hfits. simpl.
    exists (app1 :: fits). split; [reflexivity|].
    destruct (Rlt_dec (aic (m_bestModel app1)) (bestAIC s)) as [Hlt|Hge].
    + right. destruct Hsel as [(HA & HM & Hall)|(j & a & Hmin & HM & HA & Hlt')].
      * exists 0%nat, app1. repeat split; try assumption.
        -- intros [|i] b Hb; simpl in Hb.
           ++ injection Hb as <-. lra.
           ++ apply (Forall_lookup_1 _ _ _ _ Hall Hb).
        -- intros i b Hi. lia.
      * destruct Hmin as (Hj & Hle & Hfirst).
        exists (S j), a. repeat split; try assumption; try lra.
        -- intros [|i] b Hb; simpl in Hb.
           ++ injection Hb as <-. lra.
           ++ by eapply Hle.
        -- intros [|i] b Hi Hb; simpl in Hb.
           ++ injection Hb as <-. lra.
           ++ eapply Hfirst; [|exact Hb]. lia.
    + destruct Hsel as [(HA & HM & Hall)|(j & a & Hmin & HM & HA & Hlt')].
      * left. repeat split; try assumption. constructor; [lra|assumption].
      * right. destruct Hmin as (Hj & Hle & Hfirst).
        exists (S j), a. repeat split; try assumption.
        -- intros [|i] b Hb; simpl in Hb.
           ++ injection Hb as <-. lra.
           ++ by eapply Hle.
        -- intros [|i] b Hi Hb; simpl in Hb.
           ++ injection Hb as <-. lra.
           ++ eapply Hfirst; [|exact Hb]. lia.
Qed.

(** Two searches that differ in the BIC only go the same way. *)
Lemma searchList_forgetBIC bic (bic' : UndirectedBlockmodel -> R)
  (fuel : nat) (ks : list nat) (s1 s2 : Search) :
  forgetBIC s1 = forgetBIC s2 ->
  outcome_map forgetBIC (searchList bic fuel ks s1) =
  outcome_map forgetBIC (searchList bic' fuel ks s2).
Proof.
  revert s1 s2. induction ks as [|k ks IH]; intros s1 s2 Hsame; simpl.
  - by rewrite Hsame.
  - unfold forgetBIC in Hsame. injection Hsame as Happ HA HM.
    unfold trySearch. rewrite Happ, HA, HM.
    destruct (fitForGivenGroupCount fuel k (s_app s2)); simpl;
      try reflexivity.
    apply IH. reflexivity.
Qed.

Lemma findTypeCount_any_bic bic (bic' : UndirectedBlockmodel -> R)
  (fuel : nat) (app : App) :
  findTypeCount bic fuel app = findTypeCount bic' fuel app.
Proof.
  unfold findTypeCount. destruct (m_pGraph app) as [g|]; [|reflexivity].
  rewrite !searchLoop_candidates.
  pose proof (searchList_forgetBIC bic bic' fuel (candidates (vcount g))
                {| s_app := app; bestAIC := DBL_MAX; bestBIC := DBL_MAX;
                   bestModel := defaultModel |}
                {| s_app := app; bestAIC := DBL_MAX; bestBIC := DBL_MAX;
                   bestModel := defaultModel |} eq_refl) as Hsame.
  destruct (searchList bic _ _ _) as [s1| | |],
           (searchList bic' _ _ _) as [s2| | |];
    simpl in *; try discriminate; try reflexivity.
  - unfold forgetBIC in Hsame. injection Hsame as Happ _ HM.
    by rewrite Happ, HM.
  - by injection Hsame as ->.
Qed.

Lemma fitAll_length (fuel : nat) (ks : list nat) (app : App)
  (fits : list App) :
  fitAll fuel ks app = Done fits -> length fits = length ks.
Proof.
  revert app fits. induction ks as [|k ks IH]; intros app fits; simpl.
  - by intros [= <-].
  - destruct (fitForGivenGroupCount fuel k app) as [app1| | |]; simpl;
      try discriminate.
    destruct (fitAll fuel ks app1) as [rest| | |] eqn:Hrest; simpl;
      try discriminate.
    intros [= <-]. simpl. f_equal. by eapply IH.
Qed.

(** C4 — the search for the type count.  When [findTypeCount] returns, the
    candidates it went through are exactly the [k] from 2 up to the integer
    square root of the vertex count, in order, one fit each, every fit
    ended by a block that the convergence criterion accepted; the result is
    the same whatever the BIC is; and, as soon as one fit has an AIC below
    the initial bound [DBL_MAX], the model that is retained — as the live
    model and as the best model — is the best model of the first fit
    whose AIC is minimal. *)
Theorem findTypeCount_selects_min_aic bic (fuel : nat) (app app' : App)
  (g : Graph) :
  m_pGraph app = Some g ->
  findTypeCount bic fuel app = Done app' ->
  (forall k : nat,
     k ∈ candidates (vcount g) <->
     (2 <= k)%nat /\ (k * k <= vcount g)%nat) /\
  (forall bic' : UndirectedBlockmodel -> R,
     findTypeCount bic' fuel app = Done app') /\
  exists fits : list App,
    fitAll fuel (candidates (vcount g)) app = Done fits /\
    length fits = length (candidates (vcount g)) /\
    Forall endsConverged fits /\
    (Exists (fun a => aic (m_bestModel a) < DBL_MAX) fits ->
     exists (j : nat) (a : App),
       firstMinAIC fits j a /\
       m_bestModel app' = m_bestModel a /\
       m_pModel app' = Some (m_bestModel a) /\
       m_bestLogL app' = getLogLikelihood (m_bestModel a)).
Proof.
  intros Hg Hfind. split; [intros k; apply candidates_range|].
  split; [intros bic'; by rewrite <- (findTypeCount_any_bic bic bic')|].
  unfold findTypeCount in Hfind. rewrite Hg in Hfind.
  rewrite searchLoop_candidates in Hfind.
  destruct (searchList bic fuel (candidates (vcount g)) _) as [s| | |]
    eqn:Hsearch; simpl in Hfind; try discriminate.
  destruct (m_pModel (s_app s)) as [live|]; [|discriminate].
  injection Hfind as <-.
  apply searchList_selects in Hsearch as (fits & Hfits & Hsel).
  simpl in Hfits, Hsel. exists fits. split; [exact Hfits|].
  split; [by eapply fitAll_length|].
  split; [by eapply fitAll_ends|].
  intros Hex. destruct Hsel as [(_ & _ & Hall)|(j & a & Hmin & HM & _)].
  - exfalso. apply Exists_exists in Hex as (a & Ha & Hlt).
    rewrite Forall_forall in Hall. specialize (Hall a Ha). simpl in Hall.
    lra.
  - exists j, a. simpl. by rewrite HM.
Qed.

(** C9 — a named file that cannot be opened.  [loadGraph] then throws
    "File not found: " followed by the file name, and [run] ends with that
    exception whatever bound the fitting loops are given, even none: it
    never reaches them.  For the name "-" [loadGraph] reads the standard
    input and throws nothing. *)
Theorem loadGraph_missing_file bic (fuel : nat) (app : App) :
  (inputFile (m_args app) <> "-"%string ->
   fopen (inputFile (m_args app)) = None ->
   loadGraph (inputFile (m_args app)) =
     Thrown (String.append "File not found: " (inputFile (m_args app))) /\
   run bic fuel app =
     Thrown (String.append "File not found: " (inputFile (m_args app))) /\
   run bic 0 app =
     Thrown (String.append "File not found: " (inputFile (m_args app)))) /\
  (loadGraph "-" = Done (ReadEdgelist stdin) /\
   forall what : string, loadGraph "-" <> Thrown what).
Proof.
  split.
  - intros Hname Hopen.
    assert (Hload : loadGraph (inputFile (m_args app)) =
              Thrown (String.append "File not found: "
                        (inputFile (m_args app)))).
    { unfold loadGraph.
      destruct (String.eqb_spec (inputFile (m_args app)) "-");
        [contradiction|].
      by rewrite Hopen. }
    split; [exact Hload|].
    split; unfold run; simpl; by rewrite Hload.
  - split; [reflexivity|]. intros what. discriminate.
Qed.

End DriverProperties.

Lemma last_cons_default {A : Type} (l : list A) (a d : A) :
  List.last (a :: l) d = List.last l a.
Proof.
  revert a d. induction l as [|b l IH]; intros a d; [reflexivity|].
  change (List.last (a :: b :: l) d) with (List.last (b :: l) d).
  by rewrite (IH b d), (IH b a).
Qed.

Section SearchProgress.

Context `{Collaborators}.

(** When every fit returns, so does the search, in the state the last fit
    left. *)
Lemma searchList_returns (bic : UndirectedBlockmodel -> R) (fuel : nat)
  (ks : list nat) (s : Search) (fits : list App) :
  fitAll fuel ks (s_app s) = Done fits ->
  exists s' : Search,
    searchList bic fuel ks s = Done s' /\
    s_app s' = List.last fits (s_app s).
Proof.
  revert s fits. induction ks as [|k ks IH]; intros s fits; simpl.
  - intros [= <-]. by exists s.
  - unfold trySearch.
    destruct (fitForGivenGroupCount fuel k (s_app s)) as [app1| | |];
      simpl; try discriminate.
    destruct (fitAll fuel ks app1) as [rest| | |] eqn:Hrest; simpl;
      try discriminate.
    intros [= <-].
    match goal with
    | |- context [searchList _ _ _ ?s1] =>
        destruct (IH s1 rest Hrest) as (s' & Hs' & Hlast)
    end.
    exists s'. split; [exact Hs'|].
    rewrite Hlast. simpl s_app. symmetry. apply last_cons_default.
Qed.

Lemma findTypeCount_returns (bic : UndirectedBlockmodel -> R)
  (fuel : nat) (app : App) (g : Graph) (fits : list App) :
  m_pGraph app = Some g ->
  fitAll fuel (candidates (vcount g)) app = Done fits ->
  is_Some (m_pModel (List.last fits app)) ->
  exists app' : App, findTypeCount bic fuel app = Done app'.
Proof.
  intros Hg Hfits [live Hlive]. unfold findTypeCount.
  rewrite Hg, searchLoop_candidates.
  edestruct (searchList_returns bic fuel (candidates (vcount g))
               {| s_app := app; bestAIC := DBL_MAX; bestBIC := DBL_MAX;
                  bestModel := defaultModel |} fits Hfits)
    as (s' & -> & Hlast).
  simpl in *. rewrite Hlast, Hlive. eauto.
Qed.

End SearchProgress.

Section ScriptedSearch.

Local Existing Instance toyCollaborators.

Lemma toyModel_logLikelihood (k : nat) :
  (k = 2 \/ k = 3)%nat -> getLogLikelihood (toyModel k) = 0.
Proof.
  intros [->| ->]; unfold getLogLikelihood, toyModel, setTypes;
    simpl m_logLikelihood; unfold calcLogLikelihood; simpl; eval_tallies;
    unfold bernoulliTerm; simpl; lra.
Qed.

Lemma toy_aic (k : nat) :
  (k = 2 \/ k = 3)%nat -> aic (toyModel k) = INR (k * (k + 1)).
Proof.
  intros Hk. pose proof (toyModel_logLikelihood k Hk) as HL.
  unfold getLogLikelihood in HL.
  change (aic (toyModel k))
    with (INR (k * (k + 1)) - 2 * m_logLikelihood (toyModel k)).
  rewrite HL. lra.
Qed.

(** Every proposal being rejected, a fit ends with the model it started
    from. *)
Lemma toy_fit (k : nat) (live : option UndirectedBlockmodel)
  (best : UndirectedBlockmodel) (bestLogL : R) :
  fitForGivenGroupCount 1 k
    (@mkApp toyCollaborators (toyArgs "-") (Some toyGraph) live []
            bestLogL best false (Some FORMAT_PLAIN) []) =
  Done (toyFitted k).
Proof.
  unfold fitForGivenGroupCount, initModel. simpl.
  unfold runBlock. simpl.
  rewrite (runBlock_body_not_improving _ _ (toyModel k));
    [reflexivity|reflexivity|discriminate|reflexivity|].
  simpl. apply Rlt_irrefl.
Qed.

Lemma toy_fitAll :
  fitAll 1 (candidates (vcount toyGraph)) toyStart =
  Done [toyFitted 2; toyFitted 3].
Proof.
  change (candidates (vcount toyGraph)) with [2; 3]%nat.
  unfold fitAll, toyStart. rewrite toy_fit. simpl bind.
  unfold toyFitted at 1. by rewrite toy_fit.
Qed.

End ScriptedSearch.

Section ScriptedDriver.

Local Existing Instance toyCollaborators.

Lemma findTypeCount_selects_min_aic_witness :
  m_pGraph toyStart = Some toyGraph /\
  exists app' : App,
    findTypeCount toyBic 1 toyStart = Done app' /\
    (forall bic' : UndirectedBlockmodel -> R,
       findTypeCount bic' 1 toyStart = Done app') /\
    m_bestModel app' = toyModel 2 /\
    m_pModel app' = Some (toyModel 2).
Proof.
  split; [reflexivity|].
  destruct (findTypeCount_returns toyBic 1 toyStart toyGraph _ eq_refl
              toy_fitAll) as [app' Happ'].
  { simpl. eauto. }
  exists app'. split; [exact Happ'|].
  destruct (findTypeCount_selects_min_aic toyBic 1 toyStart app' toyGraph
              eq_refl Happ')
    as (_ & Hbic & fits & Hfits & _ & _ & Hsel).
  split; [exact Hbic|].
  rewrite toy_fitAll in Hfits. injection Hfits as <-.
  destruct Hsel as (j & a & (Hj & Hmin & _) & HM & HP & _).
  { apply Exists_cons_hd. change (m_bestModel (toyFitted 2)) with (toyModel 2).
    rewrite toy_aic by auto. simpl. unfold DBL_MAX. lra. }
  assert (Ha : a = toyFitted 2).
  { destruct j as [|[|j]]; simpl in Hj.
    - by injection Hj as <-.
    - injection Hj as <-. exfalso.
      pose proof (Hmin 0%nat (toyFitted 2) eq_refl) as Hle.
      change (m_bestModel (toyFitted 3)) with (toyModel 3) in Hle.
      change (m_bestModel (toyFitted 2)) with (toyModel 2) in Hle.
      rewrite !toy_aic in Hle by auto. simpl in Hle. lra.
    - discriminate. }
  subst a. by rewrite HM, HP.
Defined.

Lemma loadGraph_missing_file_witness :
  run toyBic 0 (@newApp toyCollaborators (toyArgs "missing.txt") []) =
  Thrown "File not found: missing.txt".
Proof.
  refine (proj2 (proj2
            (proj1 (loadGraph_missing_file toyBic 0
                      (@newApp toyCollaborators (toyArgs "missing.txt") []))
                   _ _))).
  - discriminate.
  - reflexivity.
Defined.

End ScriptedDriver.

(** ** A sweep that never stabilizes *)

Lemma tiedShifted_probabilities :
  getProbabilities tiedShiftedModel = [[1/2; 1/8]; [1/8; 1]].
Proof. unfold tiedShiftedModel. eval_probabilities. Qed.

Lemma tiedShifted_proposed :
  proposedTypes (logOddsMatrix (getProbabilities tiedShiftedModel))
    (getGraph tiedShiftedModel) (getTypes tiedShiftedModel)
    (getNumTypes tiedShiftedModel) = [0; 0; 0; 1; 1; 1]%nat.
Proof.
  rewrite tiedShifted_probabilities.
  assert (Hln1 : ln (1/8) < ln (1/2)) by (apply ln_increasing; lra).
  assert (Hln2 : ln (1/2) < ln 1) by (apply ln_increasing; lra).
  unfold_logOdds.
  repeat (erewrite proposedType_two by reflexivity).
  decide_scores. reflexivity.
Qed.

Lemma tied_step : step tiedModel = (tiedShiftedModel, true).
Proof.
  rewrite step_unfold, tied_proposed.
  destruct (decide _) as [_|Heq]; [reflexivity|].
  exfalso. apply Heq. discriminate.
Qed.

Lemma tiedShifted_step : step tiedShiftedModel = (tiedModel, true).
Proof.
  rewrite step_unfold, tiedShifted_proposed.
  destruct (decide _) as [_|Heq]; [reflexivity|].
  exfalso. apply Heq. discriminate.
Qed.

(** On the paths joined at their ends the sweeps alternate between two
    assignments: [optimize] does not return, whatever the bound. *)
Lemma tied_optimize_never_returns (fuel : nat) :
  optimize fuel tiedModel = None /\ optimize fuel tiedShiftedModel = None.
Proof.
  induction fuel as [|fuel [IH1 IH2]]; [by split|].
  split; simpl.
  - by rewrite tied_step.
  - by rewrite tiedShifted_step.
Qed.

(** * Further properties of the greedy sweep *)

Lemma max_element_lt (l : list R) : l <> [] -> (max_element l < length l)%nat.
Proof.
  intros Hne. destruct (max_element_first_max l Hne) as (y & Hy & _).
  by apply lookup_lt_Some in Hy.
Qed.

Lemma calcProbabilities_length (g : Graph) (k : nat) (types : list nat) :
  length (calcProbabilities g k types) = k.
Proof. unfold calcProbabilities. by rewrite length_map, length_seq. Qed.


Lemma logOddsMatrix_length (P : list (list R)) :
  length (logOddsMatrix P) = length P.
Proof.
  unfold logOddsMatrix, matrix_sub, matrix_transform.
  rewrite length_zip_with, !length_map. lia.
Qed.

Lemma proposedTypes_length (L : list (list R)) (g : Graph)
  (types : list nat) (k : nat) :
  length (proposedTypes L g types k) = vcount g.
Proof. unfold proposedTypes. by rewrite length_map, length_seq. Qed.

(** In a well-formed model with at least one type every proposal is a type
    of the model. *)
Lemma proposedType_in_range (model : UndirectedBlockmodel) (i : nat) :
  wellFormed model ->
  (0 < getNumTypes model)%nat ->
  (proposedType (logOddsMatrix (getProbabilities model)) (getGraph model)
                (getTypes model) (getNumTypes model) i
   < getNumTypes model)%nat.
Proof.
  intros (_ & _ & HP & _) Hk. unfold proposedType.
  set (scores := mat_vec _ _).
  assert (Hlen : length scores = getNumTypes model).
  { unfold scores, mat_vec. rewrite length_map, logOddsMatrix_length.
    unfold getProbabilities. rewrite HP. apply calcProbabilities_length. }
  rewrite <- Hlen. apply max_element_lt. intros Hnil.
  rewrite Hnil in Hlen. simpl in Hlen. lia.
Qed.

Lemma proposedTypes_in_range (model : UndirectedBlockmodel) :
  wellFormed model ->
  Forall (fun t => (t < getNumTypes model)%nat)
    (proposedTypes (logOddsMatrix (getProbabilities model)) (getGraph model)
                   (getTypes model) (getNumTypes model)).
Proof.
  intros Hwf. apply Forall_lookup. intros i t Hi.
  apply proposedTypes_lookup in Hi as [Hlt ->].
  apply proposedType_in_range; [exact Hwf|].
  destruct Hwf as (Hlen & Hty & _).
  destruct (lookup_lt_is_Some_2 (m_types model) i) as [t0 Ht0];
    [unfold getGraph in Hlt; lia|].
  pose proof (Forall_lookup_1 _ _ _ _ Hty Ht0) as Hlt0. simpl in Hlt0.
  unfold getNumTypes. lia.
Qed.

Lemma step_wellFormed (model : UndirectedBlockmodel) :
  wellFormed model -> wellFormed (step model).1.
Proof.
  intros Hwf. rewrite step_unfold.
  destruct (decide _) as [_|_]; simpl; [|exact Hwf].
  repeat split.
  - apply proposedTypes_length.
  - exact (proposedTypes_in_range model Hwf).
Qed.

Lemma step_same_graph (model : UndirectedBlockmodel) :
  getGraph (step model).1 = getGraph model /\
  getNumTypes (step model).1 = getNumTypes model.
Proof. rewrite step_unfold. by destruct (decide _). Qed.

(** X1 — [step] keeps the model well formed.  After a call on a well-formed
    model the assignment still has one entry per vertex, every entry is a
    type below the number of types, the probability matrix and the
    log-likelihood are those of the new assignment, and the graph and the
    number of types are the ones before the call. *)
Theorem step_preserves_wellFormed (model : UndirectedBlockmodel) :
  wellFormed model ->
  wellFormed (step model).1 /\
  getGraph (step model).1 = getGraph model /\
  getNumTypes (step model).1 = getNumTypes model /\
  length (getTypes (step model).1) = vcount (getGraph model) /\
  Forall (fun t => (t < getNumTypes model)%nat) (getTypes (step model).1).
Proof.
  intros Hwf. pose proof (step_wellFormed model Hwf) as Hwf'.
  destruct (step_same_graph model) as [Hg Hk].
  split; [exact Hwf'|]. split; [exact Hg|]. split; [exact Hk|].
  destruct Hwf' as (Hlen & Hty & _). unfold getGraph, getNumTypes in *.
  split.
  - unfold getTypes. by rewrite Hlen, Hg.
  - unfold getTypes. by rewrite <- Hk.
Qed.

Lemma prism_wellFormed : wellFormed prismModel.
Proof.
  apply freshModel_wellFormed; [reflexivity|].
  repeat constructor; simpl; lia.
Qed.

Lemma step_preserves_wellFormed_witness :
  wellFormed prismModel /\ wellFormed (step prismModel).1.
Proof.
  split; [exact prism_wellFormed|].
  exact (proj1 (step_preserves_wellFormed prismModel prism_wellFormed)).
Defined.

(** X2 — [optimize] keeps the model well formed.  When [optimize] returns
    on a well-formed model, the model it leaves is well formed, over the
    same graph and with the same number of types. *)
Theorem optimize_preserves_wellFormed (fuel : nat)
  (model model' : UndirectedBlockmodel) :
  wellFormed model ->
  optimize fuel model = Some model' ->
  wellFormed model' /\
  getGraph model' = getGraph model /\
  getNumTypes model' = getNumTypes model.
Proof.
  revert model. induction fuel as [|fuel IH]; intros model Hwf; simpl;
    [discriminate|].
  pose proof (step_wellFormed model Hwf) as Hwf'.
  destruct (step_same_graph model) as [Hg Hk].
  destruct (step model) as [m changed]. simpl in *. destruct changed.
  - intros Hopt. destruct (IH m Hwf' Hopt) as (H1 & H2 & H3).
    split; [exact H1|]. split; congruence.
  - intros [= <-]. auto.
Qed.

Lemma optimize_preserves_wellFormed_witness :
  wellFormed prismModel /\
  optimize 2 prismModel = Some prismFixedModel /\
  wellFormed prismFixedModel.
Proof.
  split; [exact prism_wellFormed|]. split; [exact prism_optimize|].
  exact (proj1 (optimize_preserves_wellFormed 2 prismModel prismFixedModel
                  prism_wellFormed prism_optimize)).
Defined.

(** X3 — a single type is a fixed point.  On a well-formed model with one
    type [step] proposes block 0 for every vertex, changes nothing and
    returns false, so [optimize] returns the model at its first call of
    [step]. *)
Theorem step_single_type (model : UndirectedBlockmodel) :
  wellFormed model ->
  getNumTypes model = 1%nat ->
  step model = (model, false) /\
  forall fuel : nat, optimize (S fuel) model = Some model.
Proof.
  intros Hwf Hk.
  assert (Hstep : step model = (model, false)).
  { rewrite step_unfold. destruct (decide _) as [Hne|_]; [|reflexivity].
    exfalso. apply Hne. apply list_eq. intros i.
    pose proof (proposedTypes_in_range model Hwf) as Hnew.
    destruct Hwf as (Hlen & Hty & _).
    destruct (decide (i < vcount (getGraph model))%nat) as [Hlt|Hge].
    - destruct (lookup_lt_is_Some_2 (getTypes model) i) as [t Ht];
        [unfold getTypes, getGraph in *; lia|].
      destruct (lookup_lt_is_Some_2
                  (proposedTypes (logOddsMatrix (getProbabilities model))
                     (getGraph model) (getTypes model) (getNumTypes model)) i)
        as [t' Ht']; [rewrite proposedTypes_length; lia|].
      pose proof (Forall_lookup_1 _ _ _ _ Hty Ht) as H1.
      pose proof (Forall_lookup_1 _ _ _ _ Hnew Ht') as H2.
      simpl in H1, H2. unfold getNumTypes in *. rewrite Ht, Ht'.
      f_equal. lia.
    - rewrite !lookup_ge_None_2; [reflexivity| |].
      + unfold getTypes, getGraph in *. lia.
      + rewrite proposedTypes_length. lia. }
  split; [exact Hstep|]. intros fuel. simpl. by rewrite Hstep.
Qed.

Lemma step_single_type_witness :
  wellFormed oneTypeModel /\
  getNumTypes oneTypeModel = 1%nat /\
  step oneTypeModel = (oneTypeModel, false).
Proof.
  assert (Hwf : wellFormed oneTypeModel).
  { apply freshModel_wellFormed; [reflexivity|].
    repeat constructor; simpl; lia. }
  split; [exact Hwf|]. split; [reflexivity|].
  exact (proj1 (step_single_type oneTypeModel Hwf eq_refl)).
Defined.

(** ** What the sweep maximizes *)











(** ** The loop of [optimize] *)

Lemma step_false_unchanged (model : UndirectedBlockmodel) :
  (step model).2 = false -> (step model).1 = model.
Proof.
  rewrite step_unfold. by destruct (decide _); [discriminate|].
Qed.

(** X5 — [optimize] stops at the first sweep that changes nothing.  It
    returns [model'] exactly when, for some [j] within the bound, the first
    [j] calls of [step] all return true, they lead to [model'], and the next
    call returns false. *)
Theorem optimize_first_fixed_point (fuel : nat)
  (model model' : UndirectedBlockmodel) :
  optimize fuel model = Some model' <->
  exists j : nat,
    (j < fuel)%nat /\
    stepN j model = model' /\
    (step model').2 = false /\
    forall i : nat, (i < j)%nat -> (step (stepN i model)).2 = true.
Proof.
  revert model. induction fuel as [|fuel IH]; intros model; simpl.
  - split; [discriminate|]. intros (j & Hj & _). lia.
  - destruct (step model) as [m changed] eqn:Hstep. simpl.
    destruct changed.
    + rewrite IH. split.
      * intros (j & Hj & Hn & Hfalse & Htrue). exists (S j).
        split; [lia|]. simpl. rewrite Hstep. simpl.
        split; [exact Hn|]. split; [exact Hfalse|].
        intros [|i] Hi; simpl; rewrite Hstep; simpl; [reflexivity|].
        apply Htrue. lia.
      * intros ([|j] & Hj & Hn & Hfalse & Htrue).
        -- simpl in Hn. subst model'. rewrite Hstep in Hfalse.
           discriminate.
        -- simpl in Hn. rewrite Hstep in Hn. simpl in Hn.
           exists j. split; [lia|]. split; [exact Hn|].
           split; [exact Hfalse|]. intros i Hi.
           specialize (Htrue (S i) ltac:(lia)). simpl in Htrue.
           by rewrite Hstep in Htrue.
    + pose proof (step_false_unchanged model) as Hsame.
      rewrite Hstep in Hsame. simpl in Hsame. specialize (Hsame eq_refl).
      subst m. split.
      * intros [= <-]. exists 0%nat. split; [lia|]. split; [reflexivity|].
        split; [by rewrite Hstep|]. intros i Hi. lia.
      * intros ([|j] & Hj & Hn & Hfalse & Htrue).
        -- simpl in Hn. by subst.
        -- specialize (Htrue 0%nat ltac:(lia)). simpl in Htrue.
           rewrite Hstep in Htrue. discriminate.
Qed.

Lemma optimize_first_fixed_point_witness :
  optimize 2 prismModel = Some prismFixedModel /\
  exists j : nat,
    (j < 2)%nat /\ stepN j prismModel = prismFixedModel /\
    (step prismFixedModel).2 = false.
Proof.
  split; [exact prism_optimize|].
  destruct (proj1 (optimize_first_fixed_point 2 prismModel prismFixedModel)
              prism_optimize) as (j & Hj & Hn & Hfalse & _).
  by exists j.
Defined.

Lemma tied_wellFormed : wellFormed tiedModel.
Proof.
  apply freshModel_wellFormed; [reflexivity|].
  repeat constructor; simpl; lia.
Qed.

(** X6 — [optimize] need not return.  There is a well-formed model, with
    every block-pair probability strictly between 0 and 1, on which the
    sweeps alternate between two assignments for ever: no bound on the
    number of calls of [step] is enough for [optimize] to return. *)
Theorem optimize_may_not_return :
  exists model : UndirectedBlockmodel,
    wellFormed model /\
    Forall (Forall (fun p => 0 < p < 1)) (getProbabilities model) /\
    (step (step model).1).1 = model /\
    (step model).1 <> model /\
    forall fuel : nat, optimize fuel model = None.
Proof.
  exists tiedModel. split; [exact tied_wellFormed|]. split.
  { rewrite tied_probabilities. repeat constructor; lra. }
  split; [rewrite tied_step; cbn [fst]; by rewrite tiedShifted_step|].
  split; [rewrite tied_step; discriminate|].
  intros fuel. apply tied_optimize_never_returns.
Qed.

(** * Further properties of the application *)

Section RunProperties.

Context `{Collaborators}.

Implicit Types bic : UndirectedBlockmodel -> R.

(** Everything one completed iteration of [runBlock] does. *)
Lemma runBlock_body_frame (app app' : App) (s s' : list R) :
  runBlock_body (app, s) = Done (app', s') ->
  exists live : UndirectedBlockmodel,
    m_pModel app' = Some live /\
    s' = s ++ [getLogLikelihood live] /\
    m_args app' = m_args app /\
    m_pGraph app' = m_pGraph app /\
    m_pModelWriter app' = m_pModelWriter app /\
    m_bestLogL app' = Rmax (m_bestLogL app) (getLogLikelihood live) /\
    (m_bestLogL app = getLogLikelihood (m_bestModel app) ->
     m_bestLogL app' = getLogLikelihood (m_bestModel app')) /\
    m_dumpBestStateFlag app' = false /\
    cout app' =
      cout app ++
      (if m_dumpBestStateFlag app
       then match m_pModelWriter app with
            | Some w => [(w, m_bestModel app')]
            | None => []
            end
       else []).
Proof.
  unfold runBlock_body. simpl.
  destruct (m_pModel app) as [model|]; [|discriminate].
  set (r := mcmc_step (m_mcmc app) model).
  destruct (Rlt_dec (m_bestLogL app) (getLogLikelihood r.2)) as [Hlt|Hge];
    simpl; destruct (logPeriod (m_args app) =? 0)%Z; try discriminate;
    intros [= <- <-]; exists r.2;
    destruct (m_dumpBestStateFlag app) eqn:Hflag; simpl;
    rewrite ?Hflag; simpl;
    (repeat split; try reflexivity; try (by rewrite app_nil_r);
     try (by destruct (m_pModelWriter app); rewrite ?app_nil_r);
     try done;
     try (unfold Rmax;
          destruct (Rle_dec (m_bestLogL app) (getLogLikelihood r.2)); lra)).
Qed.

Lemma sameSetup_refl (app : App) : sameSetup app app.
Proof. by repeat split. Qed.

Lemma sameSetup_trans (app1 app2 app3 : App) :
  sameSetup app1 app2 -> sameSetup app2 app3 -> sameSetup app1 app3.
Proof.
  intros (Ha & Hg & Hw & Hq) (Ha' & Hg' & Hw' & Hq').
  split; [congruence|]. split; [congruence|]. split; [congruence|].
  intros Hflag. destruct (Hq Hflag) as [Hf Hc].
  destruct (Hq' Hf) as [Hf' Hc']. split; congruence.
Qed.

Lemma foldl_Rmax_ge (l : list R) (b : R) :
  b <= foldl Rmax b l /\ Forall (fun x => x <= foldl Rmax b l) l.
Proof.
  revert b. induction l as [|x l IH]; intros b; simpl.
  - split; [lra|constructor].
  - destruct (IH (Rmax b x)) as [Hb Hall].
    pose proof (Rmax_l b x). pose proof (Rmax_r b x).
    split; [lra|]. constructor; [lra|exact Hall].
Qed.

(** Everything a completed loop of [runBlock] does. *)
Lemma runBlock_loop_frame (n : nat) (app app' : App) (s s' : list R) :
  runBlock_loop n (app, s) = Done (app', s') ->
  sameSetup app app' /\
  (bestConsistent app -> bestConsistent app') /\
  exists new : list R,
    s' = s ++ new /\ length new = n /\
    m_bestLogL app' = foldl Rmax (m_bestLogL app) new.
Proof.
  revert app s. induction n as [|n IH]; intros app s; simpl.
  - intros [= <- <-]. split; [apply sameSetup_refl|]. split; [done|].
    exists []. by rewrite app_nil_r.
  - destruct (runBlock_body (app, s)) as [[app1 s1]| | |] eqn:Hbody; simpl;
      try discriminate.
    intros Hrest. apply IH in Hrest as (Hsame & Hcons & new & -> & Hlen & Hbest).
    apply runBlock_body_frame in Hbody
      as (live & Hlive & -> & Ha & Hg & Hw & Hmax & Hc & Hflag & Hcout).
    split; [|split].
    + eapply sameSetup_trans; [|exact Hsame].
      split; [exact Ha|]. split; [exact Hg|]. split; [exact Hw|].
      intros Hq. split; [exact Hflag|].
      rewrite Hq in Hcout. by rewrite app_nil_r in Hcout.
    + intros [Hb _]. apply Hcons. split; [by apply Hc|].
      exists live. split; [exact Hlive|]. rewrite Hmax. apply Rmax_r.
    + exists (getLogLikelihood live :: new). rewrite <- app_assoc.
      split; [reflexivity|]. split; [simpl; lia|].
      simpl. by rewrite <- Hmax.
Qed.

Lemma runBlock_body_completes (app : App) (s : list R) :
  is_Some (m_pModel app) ->
  logPeriod (m_args app) <> 0%Z ->
  exists st' : App * list R, runBlock_body (app, s) = Done st'.
Proof.
  intros [model Hmodel] Hperiod. unfold runBlock_body. simpl.
  rewrite Hmodel.
  destruct (Rlt_dec _ _); simpl;
    destruct (Z.eqb_spec (logPeriod (m_args app)) 0); try contradiction;
    eauto.
Qed.

(** X7 — the samples and the best of a block.  When [runBlock] returns, the
    vector holds exactly [numSamples] samples — none, and nothing else
    changed, when [numSamples] is not positive — whatever it held before;
    the recorded best log-likelihood is the maximum of the one recorded
    before and of the samples, so no sample exceeds it. *)
Theorem runBlock_samples_and_best (numSamples : Z) (app app' : App)
  (samples : list R) :
  runBlock numSamples app = Done (app', samples) ->
  length samples = Z.to_nat numSamples /\
  m_bestLogL app' = foldl Rmax (m_bestLogL app) samples /\
  Forall (fun x => x <= m_bestLogL app') samples /\
  ((numSamples <= 0)%Z -> app' = app /\ samples = []).
Proof.
  unfold runBlock. intros Hrun. split; [|split; [|split]].
  - apply runBlock_loop_frame in Hrun as (_ & _ & new & -> & Hlen & _).
    exact Hlen.
  - apply runBlock_loop_frame in Hrun as (_ & _ & new & -> & _ & Hbest).
    exact Hbest.
  - apply runBlock_loop_frame in Hrun as (_ & _ & new & -> & _ & Hbest).
    simpl. rewrite Hbest. apply foldl_Rmax_ge.
  - intros Hn. replace (Z.to_nat numSamples) with 0%nat in Hrun by lia.
    simpl in Hrun. by injection Hrun as <- <-.
Qed.

(** X8 — a requested dump is served within the iteration.  After every
    completed iteration of [runBlock] the dump flag is down.  If it was up
    when the iteration began, the best model as the iteration leaves it,
    that is with this iteration's sample taken into account, has been
    written once with the configured writer (nothing is written when there
    is no writer); if it was down, nothing has been written. *)
Theorem runBlock_body_serves_dump (app app' : App) (s s' : list R) :
  runBlock_body (app, s) = Done (app', s') ->
  m_dumpBestStateFlag app' = false /\
  (m_dumpBestStateFlag app = true ->
   cout app' =
     cout app ++ match m_pModelWriter app with
                 | Some w => [(w, m_bestModel app')]
                 | None => []
                 end) /\
  (m_dumpBestStateFlag app = false -> cout app' = cout app).
Proof.
  intros Hbody. apply runBlock_body_frame in Hbody
    as (live & _ & _ & _ & _ & _ & _ & _ & Hflag & Hcout).
  split; [exact Hflag|]. split; intros Hq; rewrite Hq in Hcout.
  - exact Hcout.
  - by rewrite app_nil_r in Hcout.
Qed.

Lemma initModel_frame (fuel k : nat) (app app1 : App) :
  initModel fuel k app = Done app1 ->
  sameSetup app app1 /\ bestConsistent app1.
Proof.
  unfold initModel. destruct (m_pGraph app) as [g|]; [|discriminate].
  set (r := randomize (m_mcmc app) (newModel g k)).
  destruct (initMethod (m_args app)).
  - destruct (optimize fuel r.2) as [m|]; simpl; [|discriminate].
    intros [= <-]. split; [by repeat split|]. split; [reflexivity|].
    exists m. split; [reflexivity|]. simpl. lra.
  - simpl. intros [= <-]. split; [by repeat split|]. split; [reflexivity|].
    exists r.2. split; [reflexivity|]. simpl. lra.
Qed.

Lemma chainUntilConverged_frame (fuel : nat) (crit : Criterion)
  (app app' : App) :
  chainUntilConverged fuel crit app = Done app' ->
  sameSetup app app' /\ (bestConsistent app -> bestConsistent app').
Proof.
  revert crit app. induction fuel as [|fuel IH]; intros crit app; simpl;
    [discriminate|].
  destruct (runBlock (blockSize (m_args app)) app) as [[app1 s1]| | |]
    eqn:Hblock; simpl; try discriminate.
  apply runBlock_loop_frame in Hblock as (Hsame & Hcons & _).
  destruct (check crit s1) as [converged crit']. simpl.
  destruct converged.
  - intros [= <-]. by split.
  - intros Hrest. apply IH in Hrest as [Hsame' Hcons'].
    split; [by eapply sameSetup_trans|]. auto.
Qed.

Lemma fitForGivenGroupCount_frame (fuel k : nat) (app app' : App) :
  fitForGivenGroupCount fuel k app = Done app' ->
  sameSetup app app' /\ bestConsistent app'.
Proof.
  unfold fitForGivenGroupCount.
  destruct (initModel fuel k app) as [app1| | |] eqn:Hinit; simpl;
    try discriminate.
  apply initModel_frame in Hinit as [Hsame Hcons].
  intros Hchain. apply chainUntilConverged_frame in Hchain as [Hsame' Hc].
  split; [by eapply sameSetup_trans|]. auto.
Qed.

Lemma searchList_frame bic (fuel : nat) (ks : list nat) (s s' : Search) :
  searchList bic fuel ks s = Done s' -> sameSetup (s_app s) (s_app s').
Proof.
  revert s. induction ks as [|k ks IH]; intros s; simpl.
  - intros [= <-]. apply sameSetup_refl.
  - unfold trySearch.
    destruct (fitForGivenGroupCount fuel k (s_app s)) as [app1| | |]
      eqn:Hfit; simpl; try discriminate.
    apply fitForGivenGroupCount_frame in Hfit as [Hsame _].
    intros Hrest. apply IH in Hrest. simpl in Hrest.
    by eapply sameSetup_trans.
Qed.

Lemma findTypeCount_frame bic (fuel : nat) (app app' : App) :
  findTypeCount bic fuel app = Done app' ->
  sameSetup app app' /\ bestConsistent app'.
Proof.
  unfold findTypeCount. destruct (m_pGraph app) as [g|]; [|discriminate].
  rewrite searchLoop_candidates.
  destruct (searchList bic fuel (candidates (vcount g)) _) as [s| | |]
    eqn:Hsearch; simpl; try discriminate.
  apply searchList_frame in Hsearch. simpl in Hsearch.
  destruct (m_pModel (s_app s)); [|discriminate].
  intros [= <-]. split.
  - eapply sameSetup_trans; [exact Hsearch|]. by repeat split.
  - split; [reflexivity|]. exists (bestModel s). split; [reflexivity|].
    simpl. lra.
Qed.

Lemma fit_frame bic (fuel : nat) (app app' : App) :
  fit bic fuel app = Done app' ->
  sameSetup app app' /\ bestConsistent app'.
Proof.
  unfold fit. destruct (0 <? numGroups (m_args app))%Z.
  - apply fitForGivenGroupCount_frame.
  - apply findTypeCount_frame.
Qed.

(** X9 — what a fit leaves.  When the fitting part of [run] returns, for a
    given group count or after the search, the recorded best log-likelihood
    is the log-likelihood of the recorded best model, the live model exists
    and is not better than the best one, and the arguments, the graph and
    the writer are untouched. *)
Theorem fit_leaves_consistent_best bic (fuel : nat) (app app' : App) :
  fit bic fuel app = Done app' ->
  m_bestLogL app' = getLogLikelihood (m_bestModel app') /\
  (exists live : UndirectedBlockmodel,
     m_pModel app' = Some live /\
     getLogLikelihood live <= getLogLikelihood (m_bestModel app')) /\
  m_args app' = m_args app /\
  m_pGraph app' = m_pGraph app /\
  m_pModelWriter app' = m_pModelWriter app.
Proof.
  intros Hfit. apply fit_frame in Hfit
    as ((Ha & Hg & Hw & _) & Hbest & live & Hlive & Hle).
  split; [exact Hbest|]. split; [|by repeat split].
  exists live. split; [exact Hlive|]. by rewrite <- Hbest.
Qed.

Lemma runBlock_zero_logPeriod (n : Z) (app : App) :
  logPeriod (m_args app) = 0%Z -> (0 < n)%Z -> runBlock n app = Undefined.
Proof.
  intros Hperiod Hn. unfold runBlock.
  destruct (Z.to_nat n) as [|m] eqn:Hm; [lia|]. simpl.
  unfold runBlock_body. simpl.
  destruct (m_pModel app) as [model|]; [|reflexivity].
  destruct (Rlt_dec _ _); simpl; by rewrite Hperiod.
Qed.

Lemma runUntilHellFreezesOver_never_returns (fuel : nat) (app app' : App) :
  runUntilHellFreezesOver fuel app <> Done app'.
Proof.
  revert app. induction fuel as [|fuel IH]; intros app; simpl;
    [discriminate|].
  destruct (runBlock 1000 app) as [st| | |]; simpl; try discriminate.
  apply IH.
Qed.

Lemma run_inversion bic (fuel : nat) (app : App) (r : Z * App) :
  run bic fuel app = Done r ->
  exists (g : Graph) (app3 app4 : App),
    loadGraph (inputFile (m_args app)) = Done g /\
    fit bic fuel
        (seedSampler (setGraph (setWriter app (outputFormat (m_args app))) g))
      = Done app3 /\
    sample fuel app3 = Done app4 /\
    r = (0%Z, dumpBestState app4).
Proof.
  unfold run. simpl.
  destruct (loadGraph (inputFile (m_args app))) as [g| | |]; simpl;
    try discriminate.
  destruct (fit bic fuel _) as [app3| | |] eqn:Hfit; simpl; try discriminate.
  destruct (sample fuel app3) as [app4| | |] eqn:Hsample; simpl;
    try discriminate.
  intros [= <-]. by exists g, app3, app4.
Qed.

(** X10 — a log period of zero.  With [logPeriod] equal to 0, every call of
    [runBlock] for a positive number of samples is undefined, by the integer
    remainder taken in its first iteration, and [run] never returns. *)
Theorem zero_logPeriod_is_undefined bic (fuel : nat) (app : App) :
  logPeriod (m_args app) = 0%Z ->
  (forall n : Z, (0 < n)%Z -> runBlock n app = Undefined) /\
  (forall r : Z * App, run bic fuel app <> Done r).
Proof.
  intros Hperiod. split.
  - intros n Hn. by apply runBlock_zero_logPeriod.
  - intros r Hrun.
    apply run_inversion in Hrun as (g & app3 & app4 & _ & Hfit & Hsample & _).
    apply fit_frame in Hfit as ((Ha & _) & _). simpl in Ha.
    unfold sample in Hsample.
    destruct (Z.ltb_spec 0 (numSamples (m_args app3))) as [Hpos|Hneg].
    + rewrite runBlock_zero_logPeriod in Hsample; [discriminate| |exact Hpos].
      by rewrite Ha.
    + by apply runUntilHellFreezesOver_never_returns in Hsample.
Qed.

(** X11 — no final sampling phase.  When [numSamples] is not positive,
    [run] goes into [runUntilHellFreezesOver] after the fit and never
    returns: the final [dumpBestState] is not reached. *)
Theorem run_without_sample_count_never_returns bic (fuel : nat) (app : App)
  (r : Z * App) :
  (numSamples (m_args app) <= 0)%Z ->
  run bic fuel app <> Done r.
Proof.
  intros Hn Hrun.
  apply run_inversion in Hrun as (g & app3 & app4 & _ & Hfit & Hsample & _).
  apply fit_frame in Hfit as ((Ha & _) & _). simpl in Ha.
  unfold sample in Hsample. rewrite Ha in Hsample.
  destruct (Z.ltb_spec 0 (numSamples (m_args app))); [lia|].
  by apply runUntilHellFreezesOver_never_returns in Hsample.
Qed.

Lemma runBlock_signals_quiet (signals : list bool) (st : App * list R) :
  Forall (fun signal => signal = false) signals ->
  runBlock_signals signals st = runBlock_loop (length signals) st.
Proof.
  intros Hquiet. revert st.
  induction Hquiet as [|signal rest -> _ IH]; intros st; simpl;
    [reflexivity|].
  destruct (runBlock_body st); simpl; try reflexivity. apply IH.
Qed.

Lemma runBlock_signals_dumps (signals : list bool) (app app' : App)
  (s s' : list R) (w : OutputFormat) :
  runBlock_signals signals (app, s) = Done (app', s') ->
  m_dumpBestStateFlag app = false ->
  m_pModelWriter app = Some w ->
  m_dumpBestStateFlag app' = false /\
  m_pModelWriter app' = Some w /\
  exists dumped : list UndirectedBlockmodel,
    length dumped = length (List.filter (fun signal : bool => signal) signals)
    /\ cout app' = cout app ++ map (pair w) dumped.
Proof.
  revert app s. induction signals as [|signal rest IH]; intros app s; simpl.
  - intros [= <- <-] Hflag Hw. split; [exact Hflag|]. split; [exact Hw|].
    exists []. by rewrite app_nil_r.
  - destruct (runBlock_body _) as [[app1 s1]| | |] eqn:Hbody; simpl;
      try discriminate.
    intros Hrest Hflag Hw.
    apply runBlock_body_frame in Hbody
      as (live & _ & _ & _ & _ & Hw1 & _ & _ & Hflag1 & Hcout1).
    assert (Hw1' : m_pModelWriter app1 = Some w)
      by (rewrite Hw1; by destruct signal).
    destruct (IH app1 s1 Hrest Hflag1 Hw1') as (Hflag' & Hw' & dumped & Hlen
                                                & Hcout).
    split; [exact Hflag'|]. split; [exact Hw'|].
    destruct signal; simpl in Hcout1.
    + rewrite Hw in Hcout1. exists (m_bestModel app1 :: dumped). simpl.
      split; [by rewrite Hlen|].
      rewrite Hcout, Hcout1, <- app_assoc. reflexivity.
    + rewrite Hflag, app_nil_r in Hcout1. exists dumped.
      split; [exact Hlen|]. by rewrite Hcout, Hcout1.
Qed.

(** X12 — what the final sampling writes.  Take the iterations of the last
    [runBlock] of [run], with SIGUSR1 delivered or not before each, and the
    [dumpBestState] that follows, from a state with a writer and no dump
    pending.  Then the writer is used once for every iteration before which
    a signal was delivered, and once more at the end, on the best model
    found, always in the configured format; afterwards no dump is pending.
    A signal delivered after the last iteration and before the final dump
    changes nothing.  When no signal is delivered the iterations are those
    of [runBlock] for as many samples, and the best model is all that is
    written. *)
Theorem sampling_dumps_once_per_signal (signals : list bool)
  (app app' : App) (s s' : list R) (w : OutputFormat) :
  runBlock_signals signals (app, s) = Done (app', s') ->
  m_dumpBestStateFlag app = false ->
  m_pModelWriter app = Some w ->
  m_dumpBestStateFlag (dumpBestState app') = false /\
  (exists dumped : list UndirectedBlockmodel,
     length dumped =
       length (List.filter (fun signal : bool => signal) signals) /\
     cout (dumpBestState app') =
       cout app ++ map (pair w) dumped ++ [(w, m_bestModel app')]) /\
  dumpBestState (raiseDumpBestStateFlag app') = dumpBestState app' /\
  (Forall (fun signal => signal = false) signals ->
   runBlock_loop (length signals) (app, s) = Done (app', s') /\
   cout (dumpBestState app') = cout app ++ [(w, m_bestModel app')]).
Proof.
  intros Hrun Hflag Hw.
  destruct (runBlock_signals_dumps _ _ _ _ _ _ Hrun Hflag Hw)
    as (_ & Hw' & dumped & Hlen & Hcout).
  split; [reflexivity|]. split.
  - exists dumped. split; [exact Hlen|].
    simpl. by rewrite Hw', Hcout, <- app_assoc.
  - split; [reflexivity|]. intros Hquiet. split; [by rewrite <- runBlock_signals_quiet|].
    assert (Hnone : List.filter (fun signal : bool => signal) signals = []).
    { clear -Hquiet. induction Hquiet as [|signal rest -> _ IH];
        [reflexivity|exact IH]. }
    rewrite Hnone in Hlen. destruct dumped; [|discriminate].
    simpl. by rewrite Hw', Hcout, app_nil_r.
Qed.

Lemma candidates_small (n : nat) : (n < 4)%nat -> candidates n = [].
Proof.
  intros Hn. unfold candidates.
  assert (Nat.sqrt n < 2)%nat by (apply Nat.sqrt_lt_square; simpl; lia).
  by replace (Nat.sqrt n - 1)%nat with 0%nat by lia.
Qed.

(** X13 — fewer than four vertices.  When no group count is given and the
    graph has fewer than four vertices, the loop over the candidates runs
    no fit at all and [run], on a freshly constructed application, then
    assigns through the null model pointer: its behaviour is undefined. *)
Theorem run_small_graph_undefined bic (fuel : nat)
  (args : CommandLineArguments) (mcmc : Sampler) (g : Graph) :
  loadGraph (inputFile args) = Done g ->
  (vcount g < 4)%nat ->
  (numGroups args <= 0)%Z ->
  candidates (vcount g) = [] /\
  run bic fuel (newApp args mcmc) = Undefined.
Proof.
  intros Hload Hn Hk. pose proof (candidates_small _ Hn) as Hnone.
  split; [exact Hnone|].
  unfold run. simpl. rewrite Hload. simpl. unfold fit. simpl.
  destruct (Z.ltb_spec 0 (numGroups args)); [lia|].
  unfold findTypeCount. simpl. by rewrite searchLoop_candidates, Hnone.
Qed.

Lemma chainUntilConverged_no_block (fuel : nat) (crit : Criterion)
  (app app' : App) :
  (blockSize (m_args app) <= 0)%Z ->
  chainUntilConverged fuel crit app = Done app' -> app' = app.
Proof.
  intros Hsize. revert crit. induction fuel as [|fuel IH]; intros crit;
    simpl; [discriminate|].
  unfold runBlock.
  replace (Z.to_nat (blockSize (m_args app))) with 0%nat by lia. simpl.
  destruct (check crit []) as [converged crit']. simpl.
  destruct converged; [by intros [= <-]|apply IH].
Qed.

(** X14 — a block size of zero.  With [blockSize] equal to 0 the blocks
    handed to the convergence criterion are empty and the chain is never
    stepped before the final sampling: when [fitForGivenGroupCount]
    returns, the application is exactly as the initialization left it, and
    the live model is the best model. *)
Theorem fit_with_empty_blocks (fuel k : nat) (app app' : App) :
  blockSize (m_args app) = 0%Z ->
  fitForGivenGroupCount fuel k app = Done app' ->
  initModel fuel k app = Done app' /\
  m_pModel app' = Some (m_bestModel app').
Proof.
  intros Hzero. assert (Hsize : (blockSize (m_args app) <= 0)%Z) by lia.
  clear Hzero. unfold fitForGivenGroupCount.
  destruct (initModel fuel k app) as [app1| | |] eqn:Hinit; simpl;
    try discriminate.
  intros Hchain. pose proof Hinit as Hframe.
  apply initModel_frame in Hframe as ((Ha & _) & _).
  apply chainUntilConverged_no_block in Hchain; [|by rewrite Ha].
  subst app'. split; [reflexivity|].
  unfold initModel in Hinit. destruct (m_pGraph app); [|discriminate].
  destruct (initMethod (m_args app)).
  - destruct (optimize _ _); simpl in Hinit; [|discriminate].
    by injection Hinit as <-.
  - simpl in Hinit. by injection Hinit as <-.
Qed.

End RunProperties.

Lemma runBlock_loop_S `{Collaborators} (n : nat) (st : App * list R) :
  runBlock_loop (S n) st = bind (runBlock_body st) (runBlock_loop n).
Proof. reflexivity. Qed.

Section ScriptedRunWitnesses.

Local Existing Instance toyCollaborators.

Lemma toy_block :
  runBlock 2 (toyChain [[0; 1; 0; 1; 0; 1]; [0; 0; 1; 0; 1; 1]]%nat
                       prismModel prismModel) =
  Done (toyChain [] prismModel prismFixedModel,
        [getLogLikelihood prismFixedModel; getLogLikelihood prismModel]).
Proof.
  unfold runBlock. change (Z.to_nat 2) with 2%nat.
  rewrite runBlock_loop_S, toy_iteration_improves. cbv [bind].
  by rewrite runBlock_loop_S, toy_iteration_keeps.
Qed.

Lemma runBlock_samples_and_best_witness :
  runBlock 2 (toyChain [[0; 1; 0; 1; 0; 1]; [0; 0; 1; 0; 1; 1]]%nat
                       prismModel prismModel) =
    Done (toyChain [] prismModel prismFixedModel,
          [getLogLikelihood prismFixedModel; getLogLikelihood prismModel]) /\
  Forall (fun x => x <= getLogLikelihood prismFixedModel)
    [getLogLikelihood prismFixedModel; getLogLikelihood prismModel].
Proof.
  split; [exact toy_block|].
  exact (proj1 (proj2 (proj2 (runBlock_samples_and_best _ _ _ _ toy_block)))).
Defined.

Lemma runBlock_body_serves_dump_witness :
  exists (app' : App) (s' : list R),
    runBlock_body
      (toyChainWith (toyArgs "graph.txt") [[0; 1; 0; 1; 0; 1]]%nat
                    prismModel prismModel true, []) = Done (app', s') /\
    m_dumpBestStateFlag app' = false /\
    cout app' = [(FORMAT_PLAIN, m_bestModel app')].
Proof.
  destruct (runBlock_body_completes
              (toyChainWith (toyArgs "graph.txt") [[0; 1; 0; 1; 0; 1]]%nat
                            prismModel prismModel true) [])
    as [[app' s'] Hbody]; [by eexists|discriminate|].
  exists app', s'. split; [exact Hbody|].
  destruct (runBlock_body_serves_dump _ _ _ _ Hbody) as (Hflag & Hdump & _).
  split; [exact Hflag|]. exact (Hdump eq_refl).
Defined.

Lemma toy_fit_returns :
  exists app' : App, fit toyBic 1 toyStart = Done app'.
Proof.
  unfold fit. simpl.
  apply (findTypeCount_returns toyBic 1 toyStart toyGraph _ eq_refl
           toy_fitAll).
  simpl. eauto.
Qed.

Lemma fit_leaves_consistent_best_witness :
  exists app' : App,
    fit toyBic 1 toyStart = Done app' /\
    m_bestLogL app' = getLogLikelihood (m_bestModel app').
Proof.
  destruct toy_fit_returns as [app' Hfit]. exists app'.
  split; [exact Hfit|].
  exact (proj1 (fit_leaves_consistent_best toyBic 1 toyStart app' Hfit)).
Defined.

Lemma zero_logPeriod_is_undefined_witness :
  logPeriod (m_args (toyChainWith (set_logPeriod 0 (toyArgs "graph.txt")) []
                                  prismModel prismModel false)) = 0%Z /\
  runBlock 5 (toyChainWith (set_logPeriod 0 (toyArgs "graph.txt")) []
                           prismModel prismModel false) = Undefined.
Proof.
  split; [reflexivity|].
  apply (proj1 (zero_logPeriod_is_undefined toyBic 0
                  (toyChainWith (set_logPeriod 0 (toyArgs "graph.txt")) []
                                prismModel prismModel false) eq_refl)).
  lia.
Defined.

Lemma run_without_sample_count_never_returns_witness :
  (numSamples (set_numSamples 0 (toyArgs "-")) <= 0)%Z /\
  run toyBic 3 (@newApp toyCollaborators (set_numSamples 0 (toyArgs "-")) [])
  <> Done (0%Z, toyStart).
Proof.
  assert (Hn : (numSamples (set_numSamples 0 (toyArgs "-")) <= 0)%Z)
    by (simpl; lia).
  split; [exact Hn|].
  exact (run_without_sample_count_never_returns toyBic 3
           (@newApp toyCollaborators (set_numSamples 0 (toyArgs "-")) [])
           (0%Z, toyStart) Hn).
Defined.

Lemma sampling_dumps_once_per_signal_witness :
  exists (app' : App) (s' : list R),
    runBlock_signals [true; false]
      (toyChain [[0; 1; 0; 1; 0; 1]; [0; 0; 1; 0; 1; 1]]%nat
                prismModel prismModel, []) = Done (app', s') /\
    length (cout (dumpBestState app')) = 2%nat.
Proof.
  destruct (runBlock_body_completes
              (raiseDumpBestStateFlag
                 (toyChain [[0; 1; 0; 1; 0; 1]; [0; 0; 1; 0; 1; 1]]%nat
                           prismModel prismModel)) [])
    as [[app1 s1] Hfirst]; [by eexists|discriminate|].
  pose proof Hfirst as Hframe.
  apply runBlock_body_frame in Hframe
    as (live & Hlive & _ & Hargs & _).
  destruct (runBlock_body_completes app1 s1) as [[app2 s2] Hsecond];
    [by eexists|by rewrite Hargs|].
  assert (Hrun : runBlock_signals [true; false]
                   (toyChain [[0; 1; 0; 1; 0; 1]; [0; 0; 1; 0; 1; 1]]%nat
                             prismModel prismModel, []) = Done (app2, s2)).
  { cbn [runBlock_signals fst snd]. rewrite Hfirst. cbv [bind].
    by rewrite Hsecond. }
  exists app2, s2. split; [exact Hrun|].
  destruct (sampling_dumps_once_per_signal _ _ _ _ _ FORMAT_PLAIN Hrun
              eq_refl eq_refl) as (_ & (dumped & Hlen & Hcout) & _).
  rewrite Hcout. simpl in Hlen.
  rewrite length_app, length_app, length_map, Hlen. reflexivity.
Defined.

Lemma fit_with_empty_blocks_witness :
  exists app' : App,
    fitForGivenGroupCount 1 2
      (@mkApp toyCollaborators (set_blockSize 0 (toyArgs "-"))
              (Some toyGraph) None [] (- DBL_MAX)
              (mkModel (mkGraph 0 []) 0 [] [] 0) false
              (Some FORMAT_PLAIN) []) = Done app' /\
    m_pModel app' = Some (m_bestModel app').
Proof.
  assert (exists app' : App,
            fitForGivenGroupCount 1 2
              (@mkApp toyCollaborators (set_blockSize 0 (toyArgs "-"))
                      (Some toyGraph) None [] (- DBL_MAX)
                      (mkModel (mkGraph 0 []) 0 [] [] 0) false
                      (Some FORMAT_PLAIN) []) = Done app')
    as [app' Hfit] by (eexists; reflexivity).
  exists app'. split; [exact Hfit|].
  refine (proj2 (fit_with_empty_blocks 1 2 _ app' _ Hfit)).
  reflexivity.
Defined.

End ScriptedRunWitnesses.

Section TinyGraphWitness.

Local Existing Instance tinyCollaborators.

Lemma run_small_graph_undefined_witness :
  loadGraph "-" = Done tinyGraph /\
  run toyBic 1 (@newApp tinyCollaborators (toyArgs "-") []) = Undefined.
Proof.
  split; [reflexivity|].
  refine (proj2 (run_small_graph_undefined toyBic 1 (toyArgs "-") _
                   tinyGraph eq_refl _ _)).
  - simpl. lia.
  - simpl. lia.
Defined.

End TinyGraphWitness.

(** * Properties of the command-line options *)

Lemma optionOf_value (id : Z) (o : OptionId) :
  optionOf id = Some o -> id = optionValue o.
Proof.
  unfold optionOf.
  destruct (Z.eqb_spec id 0) as [->|_]; [by intros [= <-]|].
  destruct (Z.eqb_spec id 1) as [->|_]; [by intros [= <-]|].
  destruct (Z.eqb_spec id 2) as [->|_]; [by intros [= <-]|].
  destruct (Z.eqb_spec id 3) as [->|_]; [by intros [= <-]|].
  destruct (Z.eqb_spec id 4) as [->|_]; [by intros [= <-]|].
  destruct (Z.eqb_spec id 5) as [->|_]; [by intros [= <-]|].
  discriminate.
Qed.

(** The status of [handleOption] depends on the option and its argument
    only. *)
Lemma handleOption_status_independent (id : Z) (arg : string)
  (a b : CommandLineArguments) :
  h_status (handleOption id arg a) = h_status (handleOption id arg b).
Proof.
  unfold handleOption. destruct (optionOf id) as [[]|]; try reflexivity;
    repeat (destruct (String.eqb arg _); [reflexivity|]); reflexivity.
Qed.

Ltac split_option_cases id arg Hid :=
  unfold handleOption;
  destruct (optionOf id) as [[]|] eqn:Hid; simpl;
  repeat match goal with
         | |- context [String.eqb arg ?s] =>
             destruct (String.eqb_spec arg s) as [->|?]; simpl
         end.

Lemma handleOption_status_1 (id : Z) (arg : string)
  (a : CommandLineArguments) :
  h_status (handleOption id arg a) = 1%Z ->
  (id = 2%Z /\ arg <> "plain"%string /\ arg <> "json"%string /\
   arg <> "null"%string) \/
  (id = 4%Z /\ arg <> "greedy"%string /\ arg <> "random"%string).
Proof.
  split_option_cases id arg Hid; try discriminate; intros _;
    apply optionOf_value in Hid; subst id.
  - left. by repeat split.
  - right. by repeat split.
Qed.

Lemma handleOption_refused (id : Z) (arg : string)
  (a : CommandLineArguments) :
  (id = 2%Z /\ arg <> "plain"%string /\ arg <> "json"%string /\
   arg <> "null"%string) \/
  (id = 4%Z /\ arg <> "greedy"%string /\ arg <> "random"%string) ->
  h_status (handleOption id arg a) = 1%Z.
Proof.
  intros [(-> & H1 & H2 & H3)|(-> & H1 & H2)]; unfold handleOption; simpl.
  - destruct (String.eqb_spec arg "plain"); [done|].
    destruct (String.eqb_spec arg "json"); [done|].
    by destruct (String.eqb_spec arg "null").
  - destruct (String.eqb_spec arg "greedy"); [done|].
    by destruct (String.eqb_spec arg "random").
Qed.

Lemma handleOption_status_01 (id : Z) (arg : string)
  (a : CommandLineArguments) :
  (h_status (handleOption id arg a) = 0%Z /\
   h_cerr (handleOption id arg a) = ""%string) \/
  (h_status (handleOption id arg a) = 1%Z /\
   h_args (handleOption id arg a) = a /\
   exists prefix : string,
     h_cerr (handleOption id arg a) =
     String.append prefix (String.append arg newline)).
Proof.
  split_option_cases id arg Hid; try (by left);
    right; (split; [reflexivity|]); (split; [reflexivity|]);
    first [ by exists "Unknown output format: "%string
          | by exists "Unknown initialization method: "%string ].
Qed.

(** X15 — which options [handleOption] refuses.  The status is 1 exactly
    for the output format with a name other than plain, json and null, and
    for the initialization method with a name other than greedy and random;
    then no field is changed and the line written to [cerr] ends with the
    refused name.  In every other case, unknown identifiers included, the
    status is 0 and nothing is written. *)
Theorem handleOption_refuses_unknown_names (id : Z) (arg : string)
  (a : CommandLineArguments) :
  (h_status (handleOption id arg a) = 1%Z <->
   (id = 2%Z /\ arg <> "plain"%string /\ arg <> "json"%string /\
    arg <> "null"%string) \/
   (id = 4%Z /\ arg <> "greedy"%string /\ arg <> "random"%string)) /\
  (h_status (handleOption id arg a) = 1%Z ->
   h_args (handleOption id arg a) = a /\
   exists prefix : string,
     h_cerr (handleOption id arg a) =
     String.append prefix (String.append arg newline)) /\
  (h_status (handleOption id arg a) <> 1%Z ->
   h_status (handleOption id arg a) = 0%Z /\
   h_cerr (handleOption id arg a) = ""%string).
Proof.
  split; [split; [apply handleOption_status_1|apply handleOption_refused]|].
  destruct (handleOption_status_01 id arg a)
    as [[H0 Herr]|(H1 & Hargs & Hmsg)].
  - rewrite H0. split; [discriminate|]. by intros _.
  - rewrite H1. split; [by intros _|]. by intros Hne.
Qed.

Lemma handleOption_refuses_unknown_names_witness :
  h_status (handleOption 2 "xml" (toyArgs "-")) = 1%Z /\
  h_args (handleOption 2 "xml" (toyArgs "-")) = toyArgs "-".
Proof.
  assert (H1 : h_status (handleOption 2 "xml" (toyArgs "-")) = 1%Z).
  { apply (proj1 (handleOption_refuses_unknown_names 2 "xml" (toyArgs "-"))).
    left. by repeat split. }
  split; [exact H1|].
  exact (proj1 (proj1 (proj2 (handleOption_refuses_unknown_names
                                2 "xml" (toyArgs "-"))) H1)).
Defined.

(** X16 — the order of the options.  Two calls of [handleOption] for
    different options leave the same fields in either order; of two calls
    for the same option the second, when it is accepted, decides alone. *)
Theorem handleOption_order (id1 id2 : Z) (arg1 arg2 : string)
  (a : CommandLineArguments) :
  (id1 <> id2 ->
   h_args (handleOption id2 arg2 (h_args (handleOption id1 arg1 a))) =
   h_args (handleOption id1 arg1 (h_args (handleOption id2 arg2 a)))) /\
  (id1 = id2 ->
   h_status (handleOption id2 arg2 a) = 0%Z ->
   h_args (handleOption id2 arg2 (h_args (handleOption id1 arg1 a))) =
   h_args (handleOption id2 arg2 a)).
Proof.
  split.
  - intros Hne. unfold handleOption.
    destruct (optionOf id1) as [[]|] eqn:H1,
             (optionOf id2) as [[]|] eqn:H2;
      try (apply optionOf_value in H1; apply optionOf_value in H2;
           simpl in H1, H2; congruence);
      simpl;
      repeat match goal with
             | |- context [String.eqb ?x ?s] =>
                 destruct (String.eqb x s); simpl
             end;
      reflexivity.
  - intros <-. unfold handleOption.
    destruct (optionOf id1) as [[]|]; simpl;
      repeat match goal with
             | |- context [String.eqb ?x ?s] =>
                 destruct (String.eqb x s); simpl
             end;
      try reflexivity; discriminate.
Qed.

Lemma handleOption_order_witness :
  h_args (handleOption 3 "100" (h_args (handleOption 0 "4" (toyArgs "-")))) =
  h_args (handleOption 0 "4" (h_args (handleOption 3 "100" (toyArgs "-")))) /\
  numGroups (h_args (handleOption 0 "4" (toyArgs "-"))) = 4%Z.
Proof.
  split; [|reflexivity].
  apply (proj1 (handleOption_order 0 3 "4" "100" (toyArgs "-"))).
  discriminate.
Defined.

(** X17 — a log period that reads as zero.  [handleOption] accepts every
    argument of the log period, also one that [atoi] reads as 0, such as a
    word; with the fields it then leaves, every call of [runBlock] for a
    positive number of samples is undefined. *)
Theorem log_period_option_zero `{Collaborators} (arg : string)
  (a : CommandLineArguments) (app : App) (n : Z) :
  atoi arg = 0%Z ->
  m_args app = h_args (handleOption 3 arg a) ->
  (0 < n)%Z ->
  h_status (handleOption 3 arg a) = 0%Z /\
  logPeriod (m_args app) = 0%Z /\
  runBlock n app = Undefined.
Proof.
  intros Hatoi Hargs Hn. split; [reflexivity|].
  assert (Hperiod : logPeriod (m_args app) = 0%Z)
    by (rewrite Hargs; simpl; exact Hatoi).
  split; [exact Hperiod|]. by apply runBlock_zero_logPeriod.
Qed.

Lemma log_period_option_zero_witness :
  atoi "often" = 0%Z /\
  @runBlock toyCollaborators 7
    (toyChainWith (h_args (handleOption 3 "often" (toyArgs "graph.txt"))) []
                  prismModel prismModel false) = Undefined.
Proof.
  split; [reflexivity|].
  refine (proj2 (proj2 (@log_period_option_zero toyCollaborators "often"
                          (toyArgs "graph.txt")
                          (toyChainWith
                             (h_args (handleOption 3 "often"
                                        (toyArgs "graph.txt"))) []
                             prismModel prismModel false)
                          7 eq_refl eq_refl _))).
  lia.
Defined.

(** * How fits and blocks compose *)

Section Composition.

Context `{Collaborators}.

(** X18 — a fit starts afresh.  [fitForGivenGroupCount] reads neither the
    live model nor the best model and best log-likelihood recorded before:
    two applications that agree on the arguments, the graph, the sampler,
    the dump flag, the writer and the output give the same outcome.  In the
    search every candidate is therefore judged by the best model of its own
    fit. *)
Theorem fitForGivenGroupCount_forgets_best (fuel k : nat) (app1 app2 : App) :
  m_args app1 = m_args app2 ->
  m_pGraph app1 = m_pGraph app2 ->
  m_mcmc app1 = m_mcmc app2 ->
  m_dumpBestStateFlag app1 = m_dumpBestStateFlag app2 ->
  m_pModelWriter app1 = m_pModelWriter app2 ->
  cout app1 = cout app2 ->
  fitForGivenGroupCount fuel k app1 = fitForGivenGroupCount fuel k app2.
Proof.
  intros Ha Hg Hm Hf Hw Hc.
  assert (Hinit : initModel fuel k app1 = initModel fuel k app2).
  { unfold initModel, setBest, setLive. simpl.
    rewrite Ha, Hg, Hm, Hf, Hw, Hc. reflexivity. }
  unfold fitForGivenGroupCount. by rewrite Hinit.
Qed.

Lemma runBlock_body_shift (app app' : App) (s s' t : list R) :
  runBlock_body (app, s) = Done (app', s') ->
  exists x : R,
    s' = s ++ [x] /\ runBlock_body (app, t) = Done (app', t ++ [x]).
Proof.
  unfold runBlock_body. simpl.
  destruct (m_pModel app) as [model|]; [|discriminate].
  destruct (logPeriod (m_args _) =? 0)%Z; [discriminate|].
  intros [= <- <-]. eauto.
Qed.

Lemma runBlock_loop_shift (n : nat) (app app' : App) (new t : list R) :
  runBlock_loop n (app, []) = Done (app', new) ->
  runBlock_loop n (app, t) = Done (app', t ++ new).
Proof.
  assert (Hgen : forall s s',
            runBlock_loop n (app, s) = Done (app', s') ->
            exists new', s' = s ++ new' /\
              forall t', runBlock_loop n (app, t') = Done (app', t' ++ new')).
  { revert app. induction n as [|n IH]; intros app s s'; simpl.
    - intros [= <- <-]. exists []. rewrite app_nil_r. split; [done|].
      intros t'. by rewrite app_nil_r.
    - destruct (runBlock_body (app, s)) as [[app1 s1]| | |] eqn:Hbody;
        simpl; try discriminate.
      intros Hrest.
      destruct (runBlock_body_shift app app1 s s1 s Hbody) as (x & -> & _).
      apply IH in Hrest as (new' & -> & Hall).
      exists (x :: new'). rewrite <- app_assoc. split; [done|].
      intros t'.
      destruct (runBlock_body_shift app app1 s (s ++ [x]) t' Hbody)
        as (y & Hy & ->).
      apply app_inj_tail in Hy as [_ <-]. simpl.
      rewrite Hall, <- app_assoc. reflexivity. }
  intros Hrun. apply Hgen in Hrun as (new' & Hnew & Hall).
  simpl in Hnew. subst new'. apply Hall.
Qed.

Lemma runBlock_loop_add (n1 n2 : nat) (st : App * list R) :
  runBlock_loop (n1 + n2) st =
  bind (runBlock_loop n1 st) (runBlock_loop n2).
Proof.
  revert st. induction n1 as [|n1 IH]; intros st; simpl; [reflexivity|].
  destruct (runBlock_body st); simpl; try reflexivity. apply IH.
Qed.

(** X19 — blocks compose.  Two calls of [runBlock] in a row, for [n1] and
    then [n2] samples, leave the application as one call for [n1 + n2]
    samples does, and the samples of the long block are those of the two
    short ones, one after the other: nothing but the sample vector is reset
    at the start of a block. *)
Theorem runBlock_splits (n1 n2 : Z) (app app1 app2 : App)
  (s1 s2 : list R) :
  (0 <= n1)%Z -> (0 <= n2)%Z ->
  runBlock n1 app = Done (app1, s1) ->
  runBlock n2 app1 = Done (app2, s2) ->
  runBlock (n1 + n2) app = Done (app2, s1 ++ s2).
Proof.
  unfold runBlock. intros H1 H2 Hfirst Hsecond.
  rewrite Z2Nat.inj_add by assumption.
  rewrite runBlock_loop_add, Hfirst. simpl.
  by apply runBlock_loop_shift.
Qed.

End Composition.

Section CompositionWitnesses.

Local Existing Instance toyCollaborators.

Lemma fitForGivenGroupCount_forgets_best_witness :
  fitForGivenGroupCount 1 3 toyStart =
  fitForGivenGroupCount 1 3 (toyFitted 2).
Proof.
  exact (fitForGivenGroupCount_forgets_best 1 3 toyStart (toyFitted 2)
           eq_refl eq_refl eq_refl eq_refl eq_refl eq_refl).
Defined.

Lemma toy_first_block :
  runBlock 1 (toyChain [[0; 1; 0; 1; 0; 1]; [0; 0; 1; 0; 1; 1]]%nat
                       prismModel prismModel) =
  Done (toyChain [[0; 0; 1; 0; 1; 1]]%nat prismFixedModel prismFixedModel,
        [getLogLikelihood prismFixedModel]).
Proof.
  unfold runBlock. change (Z.to_nat 1) with 1%nat.
  by rewrite runBlock_loop_S, toy_iteration_improves.
Qed.

Lemma toy_second_block :
  runBlock 1 (toyChain [[0; 0; 1; 0; 1; 1]]%nat prismFixedModel
                       prismFixedModel) =
  Done (toyChain [] prismModel prismFixedModel,
        [getLogLikelihood prismModel]).
Proof.
  unfold runBlock. change (Z.to_nat 1) with 1%nat.
  rewrite runBlock_loop_S.
  rewrite (runBlock_body_not_improving _ _ prismFixedModel);
    [reflexivity|reflexivity|discriminate|reflexivity|].
  pose proof prism_logLikelihood_lt as Hlt. intros Hgt.
  change (getLogLikelihood prismFixedModel < getLogLikelihood prismModel)
    in Hgt. lra.
Qed.

Lemma runBlock_splits_witness :
  runBlock (1 + 1)
    (toyChain [[0; 1; 0; 1; 0; 1]; [0; 0; 1; 0; 1; 1]]%nat
              prismModel prismModel) =
  Done (toyChain [] prismModel prismFixedModel,
        [getLogLikelihood prismFixedModel] ++ [getLogLikelihood prismModel]).
Proof.
  refine (runBlock_splits 1 1 _ _ _ _ _ _ _ toy_first_block
            toy_second_block); lia.
Defined.

End CompositionWitnesses.
